(** * GrpcConnection: the Node connection of the Firestore client

    A shallow embedding of
    [packages/firestore/src/platform_node/grpc_connection.ts]:
    header composition ([createHeaders]), the stub cache
    ([sameToken], [ensureActiveStub], [getRpcCallable]), the unary and
    server-streaming adapters ([invokeRPC], [invokeStreamingRPC]) and the
    duplex stream bridge built by [openStream].

    Imperative code is written in a state-and-exception monad that also
    records, in call order, every call the code makes to a collaborator
    (logger, grpc stream, stream bridge callbacks). *)

From Stdlib Require Import ZArith String Ascii List Bool Lia.
From stdpp Require Import base option list gmap strings pretty.

Set Warnings "-register-all".

(** ** JavaScript values that [sameToken] compares *)

(** [tokenA && tokenA.authHeaders['Authorization']] evaluates to [null]
    for a null token, to [undefined] when the key is absent and to the
    header's string otherwise. *)
Inductive JsValue :=
| JsNull
| JsUndefined
| JsString (s : string).

(** The [===] operator on those values. *)
Definition strictEquals (a b : JsValue) : bool :=
  match a, b with
  | JsNull, JsNull => true
  | JsUndefined, JsUndefined => true
  | JsString s, JsString t => bool_decide (s = t)
  | _, _ => false
  end.

(** ** Data of the collaborators *)

(** [Token] of [api/credentials]: the fields this file reads. *)
Record Token := {
  type : string;
  authHeaders : gmap string string
}.

Record DatabaseId := {
  projectId : string;
  database : string
}.

Record DatabaseInfo := {
  databaseId : DatabaseId;
  host : string
}.

(** Modelled from the spec: [grpc.Metadata] is a set of key/value pairs
    with one value per key; [set] overwrites the value of a key that is
    already present. *)
Definition Metadata_set (key value : string) (metadata : gmap string string)
  : gmap string string :=
  <[key := value]> metadata.

(** What [combineChannelCredentials] returns: the SSL channel credentials
    together with the metadata generator, a function of the call context's
    [service_url] that hands its metadata to the continuation [cb] with a
    null error. *)
Record ChannelCredentials := {
  channelCredentials_ssl : bool;
  callCredentials : string -> gmap string string
}.

(** Exceptions: a failed internal assertion ([util/assert], fatal), or an
    exception raised inside the grpc library. *)
Inductive Exception :=
| AssertionFailed (message : string)
| Raised (e : string).

Inductive Result (A : Type) :=
| Return (a : A)
| Throw (e : Exception).
Arguments Return {A} a.
Arguments Throw {A} e.

(** The generated stub: an object with an identity, built for one host and
    one set of credentials. *)
Record Stub := {
  stubId : nat;
  stubHost : string;
  stubCredentials : ChannelCredentials
}.

Record CachedStub := {
  stub : Stub;
  token : option Token
}.

(** The fields of a [GrpcConnection]. [stubsCreated] is not a field of the
    class: it counts the stub objects allocated so far and gives each new
    one its identity. *)
Record GrpcConnection := {
  databaseInfo : DatabaseInfo;
  cachedStub : option CachedStub;
  stubsCreated : nat
}.

Module ServiceError.
Record t := { code : Z; message : string }.
End ServiceError.

Module StatusObject.
Record t := { code : Z; details : string }.
End StatusObject.

(** ** The environment of the connection

    Everything the file imports or receives from the grpc runtime: the
    message types, the error-code table of [remote/rpc_error], the version
    strings, and how the library's own calls behave. *)
Class Transport := {
  Req : Type;
  Resp : Type;
  Code : Type;
  mapCodeFromRpcCode : Z -> Code;
  (** [process.versions.node], [firebase.SDK_VERSION] and the version of
      [grpc/package.json] *)
  node_version : string;
  SDK_VERSION : string;
  grpcVersion : string;
  (** [new this.firestore.Firestore(host, credentials)]: [Some e] when the
      constructor throws [e] *)
  Firestore_new : string -> ChannelCredentials -> option string;
  (** [stub[rpcMethod] != null] *)
  stub_has : string -> bool;
  (** [grpcStream.write(msg)]: [Some e] when the write throws [e] *)
  grpcStream_write : Req -> option string
}.

Module FirestoreError.
Record t `{Transport} := { code : Code; message : string }.
End FirestoreError.

(** ** Calls made to collaborators, in the order they are made *)
Inductive Effect `{Transport} :=
| LogDebug (tag msg : string)
| LogError (msg : string)
| HeadersCreated (token : option Token)
| StubConstructed (host : string)
| UnaryCall (rpcMethod : string) (request : Req)
| ServerStreamCall (rpcMethod : string) (request : Req)
| DuplexCall (rpcMethod : string)
| SetTimeout0
| GrpcWrite (msg : Req)
| GrpcEnd
| CallOnOpen
| CallOnMessage (msg : Resp)
| CallOnClose (err : option FirestoreError.t).

(** ** The monad: state, call log, exceptions *)
Definition M `{Transport} (S A : Type) : Type :=
  S -> S * list Effect * Result A.

Definition ret `{Transport} {S A : Type} (a : A) : M S A :=
  fun s => (s, [], Return a).

(** A thrown exception skips the continuation; the state changes and the
    calls made before it stay. *)
Definition bind `{Transport} {S A B : Type} (k : A -> M S B) (m : M S A)
  : M S B :=
  fun s =>
    match m s with
    | (s1, t1, Return a) =>
        match k a s1 with
        | (s2, t2, r) => (s2, t1 ++ t2, r)
        end
    | (s1, t1, Throw e) => (s1, t1, Throw e)
    end.

#[global] Instance M_ret `{Transport} (S : Type) : MRet (M S) := @ret _ S.
#[global] Instance M_bind `{Transport} (S : Type) : MBind (M S) := @bind _ S.

Definition get `{Transport} {S : Type} : M S S :=
  fun s => (s, [], Return s).

Definition put `{Transport} {S : Type} (s' : S) : M S unit :=
  fun _ => (s', [], Return tt).

Definition emit `{Transport} {S : Type} (e : Effect) : M S unit :=
  fun s => (s, [e], Return tt).

Definition throw `{Transport} {S A : Type} (e : Exception) : M S A :=
  fun s => (s, [], Throw e).

(** [try { m } catch (e) { handler e }] *)
Definition try_catch `{Transport} {S A : Type} (m : M S A)
    (handler : Exception -> M S A) : M S A :=
  fun s =>
    match m s with
    | (s1, t1, Return a) => (s1, t1, Return a)
    | (s1, t1, Throw e) =>
        match handler e s1 with
        | (s2, t2, r) => (s2, t1 ++ t2, r)
        end
    end.

(** A pure computation that may throw, run inside the monad. *)
Definition lift `{Transport} {S A : Type} (r : Result A) : M S A :=
  fun s => (s, [], r).

(** Modelled from the spec: [assert] of [util/assert] raises a fatal
    assertion failure when its condition is false and does nothing
    otherwise. *)
Definition assert (assertion : bool) (message : string) : Result unit :=
  if assertion then Return tt else Throw (AssertionFailed message).

Definition LOG_TAG : string := "Connection".

Definition dquote : string := String (ascii_of_nat 34) EmptyString.

(** ** Header composition *)

Definition X_GOOG_API_CLIENT_VALUE `{Transport} : string :=
  "gl-node/" +:+ node_version +:+ " fire/" +:+ SDK_VERSION
    +:+ " grpc/" +:+ grpcVersion.

(** The body of the metadata generator: the metadata handed to [cb]. *)
Definition metadataGenerator `{Transport} (databaseInfo : DatabaseInfo)
    (token : option Token) (service_url : string) : gmap string string :=
  let metadata : gmap string string := ∅ in
  let metadata :=
    match token with
    | Some t =>
        map_fold (fun header value md => Metadata_set header value md)
                 metadata (authHeaders t)
    | None => metadata
    end in
  let metadata :=
    Metadata_set "x-goog-api-client" X_GOOG_API_CLIENT_VALUE metadata in
  Metadata_set "google-cloud-resource-prefix"
    ("projects/" +:+ projectId (databaseId databaseInfo) +:+ "/"
       +:+ "databases/" +:+ database (databaseId databaseInfo))
    metadata.

Definition createHeaders `{Transport} (databaseInfo : DatabaseInfo)
    (token : option Token) : Result ChannelCredentials :=
  match assert (match token with
                | None => true
                | Some t => bool_decide (type t = "OAuth")
                end)
               "If provided, token must be OAuth" with
  | Throw e => Throw e
  | Return _ =>
      Return {| channelCredentials_ssl := true;
                callCredentials := metadataGenerator databaseInfo token |}
  end.

(** ** The stub cache *)

Definition authorizationOf (token : option Token) : JsValue :=
  match token with
  | None => JsNull
  | Some t =>
      match authHeaders t !! "Authorization" with
      | Some v => JsString v
      | None => JsUndefined
      end
  end.

Definition sameToken (tokenA tokenB : option Token) : bool :=
  let valueA := authorizationOf tokenA in
  let valueB := authorizationOf tokenB in
  strictEquals valueA valueB.

(** The condition of the [if] in [ensureActiveStub]. *)
Definition needsNewStub (this : GrpcConnection) (token : option Token) : bool :=
  match cachedStub this with
  | None => true
  | Some {| token := cachedToken |} => negb (sameToken cachedToken token)
  end.

(** [new this.firestore.Firestore(host, credentials)] *)
Definition newFirestore `{Transport} (host : string)
    (credentials : ChannelCredentials) : M GrpcConnection Stub :=
  emit (StubConstructed host);;
  match Firestore_new host credentials with
  | Some e => throw (Raised e)
  | None =>
      this ← get;
      put {| databaseInfo := databaseInfo this;
             cachedStub := cachedStub this;
             stubsCreated := S (stubsCreated this) |};;
      mret {| stubId := stubsCreated this;
              stubHost := host;
              stubCredentials := credentials |}
  end.

Definition ensureActiveStub `{Transport} (token : option Token)
  : M GrpcConnection Stub :=
  this ← get;
  (if needsNewStub this token then
     emit (LogDebug LOG_TAG "Creating Firestore stub.");;
     emit (HeadersCreated token);;
     credentials ← lift (createHeaders (databaseInfo this) token);
     newStub ← newFirestore (host (databaseInfo this)) credentials;
     this ← get;
     put {| databaseInfo := databaseInfo this;
            cachedStub := Some {| stub := newStub; token := token |};
            stubsCreated := stubsCreated this |}
   else mret tt);;
  this ← get;
  match cachedStub this with
  | Some cached => mret (stub cached)
  | None => throw (Raised "TypeError: Cannot read property 'stub' of null")
  end.

(** A run of [ensureActiveStub] calls; a call that throws leaves the
    connection as the call left it and the run goes on. *)
Fixpoint ensureActiveStub_calls `{Transport} (tokens : list (option Token))
    (this : GrpcConnection) : GrpcConnection :=
  match tokens with
  | [] => this
  | token :: rest =>
      ensureActiveStub_calls rest (ensureActiveStub token this).1.1
  end.

(** The connection as its constructor leaves it. *)
Definition newGrpcConnection (databaseInfo : DatabaseInfo) : GrpcConnection :=
  {| databaseInfo := databaseInfo; cachedStub := None; stubsCreated := 0 |}.

(** ** Call dispatch *)

(** [toLowerCase] on one character of an RPC name (names are ASCII). *)
Definition toLowerCase (c : ascii) : ascii :=
  let n := nat_of_ascii c in
  if (65 <=? n)%nat && (n <=? 90)%nat then ascii_of_nat (n + 32) else c.

(** [rpcName.charAt(0).toLowerCase() + rpcName.slice(1)] *)
Definition lowerFirst (rpcName : string) : string :=
  match rpcName with
  | EmptyString => EmptyString
  | String c rest => String (toLowerCase c) rest
  end.

(** [rpc.bind(stub)] *)
Record Callable := {
  boundStub : Stub;
  boundMethod : string
}.

Definition getRpcCallable `{Transport} (rpcName : string)
    (token : option Token) : M GrpcConnection Callable :=
  let rpcMethod := lowerFirst rpcName in
  stub ← ensureActiveStub token;
  lift (assert (stub_has rpcMethod) ("Unknown RPC: " +:+ rpcName));;
  mret {| boundStub := stub; boundMethod := rpcMethod |}.

(** ** Promises *)

(** A promise settles once: [resolve] and [reject] do nothing to a promise
    that is no longer pending. *)
Inductive Promise `{Transport} (A : Type) :=
| Pending
| Fulfilled (value : A)
| Rejected (reason : FirestoreError.t).
Arguments Pending {_ A}.
Arguments Fulfilled {_ A} value.
Arguments Rejected {_ A} reason.

Definition resolve `{Transport} {A : Type} (value : A) (p : Promise A)
  : Promise A :=
  match p with
  | Pending => Fulfilled value
  | _ => p
  end.

Definition reject `{Transport} {A : Type} (reason : FirestoreError.t)
    (p : Promise A) : Promise A :=
  match p with
  | Pending => Rejected reason
  | _ => p
  end.

(** ** Unary calls *)

(** Modelled from the spec: [nodePromise] of [util/node_api] turns a
    node-style completion callback into a promise; the callback it hands
    to the action rejects the promise when given an error and resolves it
    with the value otherwise. *)
Definition nodeCallback `{Transport} {A : Type}
    (error : option FirestoreError.t) (value : A) : M (Promise A) unit :=
  p ← get;
  match error with
  | Some e => put (reject e p)
  | None => put (resolve value p)
  end.

(** The completion callback [invokeRPC] passes to the stub's method. The
    success value is optional in the callback's signature. *)
Definition invokeRPC_callback `{Transport} (rpcName : string)
    (grpcError : option ServiceError.t) (value : option Resp)
  : M (Promise (option Resp)) unit :=
  match grpcError with
  | Some grpcError =>
      emit (LogDebug LOG_TAG
              ("RPC '" +:+ rpcName +:+ "' failed with error:"));;
      nodeCallback
        (Some {| FirestoreError.code :=
                   mapCodeFromRpcCode (ServiceError.code grpcError);
                 FirestoreError.message := ServiceError.message grpcError |})
        None
  | None =>
      emit (LogDebug LOG_TAG
              ("RPC '" +:+ rpcName +:+ "' completed with response:"));;
      nodeCallback None value
  end.

(** The synchronous part of [invokeRPC]: the promise it returns. *)
Definition invokeRPC `{Transport} (rpcName : string) (request : Req)
    (token : option Token) : M GrpcConnection (Promise (option Resp)) :=
  rpc ← getRpcCallable rpcName token;
  emit (LogDebug LOG_TAG
          ("RPC '" +:+ rpcName +:+ "' invoked with request:"));;
  emit (UnaryCall (boundMethod rpc) request);;
  mret Pending.

(** The promise after the transport has invoked the completion callback
    with each of [completions] in turn. *)
Fixpoint invokeRPC_completions `{Transport} (rpcName : string)
    (completions : list (option ServiceError.t * option Resp))
    (p : Promise (option Resp)) : Promise (option Resp) :=
  match completions with
  | [] => p
  | (grpcError, value) :: rest =>
      invokeRPC_completions rpcName rest
        (invokeRPC_callback rpcName grpcError value p).1.1
  end.

(** ** Server-streaming calls collected into one promise *)

(** The locals of one [invokeStreamingRPC] call. Arrays are objects: the
    heap holds their contents, [results] is the address of the array the
    call allocates, and a promise resolved with an array holds its
    address, not a copy. *)
Record StreamingCall `{Transport} := {
  heap : list (list Resp);
  results : nat;
  responseDeferred : Promise nat
}.

(** [array.push(response)] on the array at [address] *)
Definition Array_push `{Transport} (address : nat) (response : Resp)
    (heap : list (list Resp)) : list (list Resp) :=
  match heap !! address with
  | Some contents => <[address := contents ++ [response]]> heap
  | None => heap
  end.

(** Events of the readable stream the call listens to. *)
Inductive ReadableEvent `{Transport} :=
| ReadableData (response : Resp)
| ReadableEnd
| ReadableError (grpcError : ServiceError.t).

Definition streaming_onData `{Transport} (rpcName : string) (response : Resp)
  : M StreamingCall unit :=
  emit (LogDebug LOG_TAG ("RPC " +:+ rpcName +:+ " received result:"));;
  c ← get;
  put {| heap := Array_push (results c) response (heap c);
         results := results c;
         responseDeferred := responseDeferred c |}.

Definition streaming_onEnd `{Transport} (rpcName : string)
  : M StreamingCall unit :=
  emit (LogDebug LOG_TAG ("RPC '" +:+ rpcName +:+ "' completed."));;
  c ← get;
  put {| heap := heap c;
         results := results c;
         responseDeferred := resolve (results c) (responseDeferred c) |}.

Definition streaming_onError `{Transport} (rpcName : string)
    (grpcError : ServiceError.t) : M StreamingCall unit :=
  emit (LogDebug LOG_TAG ("RPC '" +:+ rpcName +:+ "' failed with error:"));;
  let code := mapCodeFromRpcCode (ServiceError.code grpcError) in
  c ← get;
  put {| heap := heap c;
         results := results c;
         responseDeferred :=
           reject {| FirestoreError.code := code;
                     FirestoreError.message := ServiceError.message grpcError |}
                  (responseDeferred c) |}.

(** The synchronous part of [invokeStreamingRPC]: a fresh empty [results]
    array, a pending deferred, the call, the three listeners. *)
Definition invokeStreamingRPC `{Transport} (rpcName : string) (request : Req)
    (token : option Token) : M GrpcConnection StreamingCall :=
  rpc ← getRpcCallable rpcName token;
  emit (LogDebug LOG_TAG
          ("RPC '" +:+ rpcName +:+ "' invoked (streaming) with request:"));;
  emit (ServerStreamCall (boundMethod rpc) request);;
  mret {| heap := [[]]; results := 0; responseDeferred := Pending |}.

Definition streaming_dispatch `{Transport} (rpcName : string)
    (ev : ReadableEvent) : M StreamingCall unit :=
  match ev with
  | ReadableData response => streaming_onData rpcName response
  | ReadableEnd => streaming_onEnd rpcName
  | ReadableError grpcError => streaming_onError rpcName grpcError
  end.

Fixpoint streaming_events `{Transport} (rpcName : string)
    (evs : list ReadableEvent) (c : StreamingCall) : StreamingCall :=
  match evs with
  | [] => c
  | ev :: rest =>
      streaming_events rpcName rest (streaming_dispatch rpcName ev c).1.1
  end.

(** What a holder of the returned promise sees: nothing yet, the current
    contents of the array it was resolved with, or the rejection. *)
Inductive Outcome `{Transport} :=
| NotSettled
| ResolvedWith (responses : list Resp)
| RejectedWith (error : FirestoreError.t).

Definition observe `{Transport} (c : StreamingCall) : Outcome :=
  match responseDeferred c with
  | Pending => NotSettled
  | Fulfilled address => ResolvedWith (default [] (heap c !! address))
  | Rejected error => RejectedWith error
  end.

(** ** The duplex stream *)

(** The one local of [openStream] that changes. *)
Record StreamState := { closed : bool }.

(** What the caller does with the stream: [stream.send(msg)] or
    [stream.close()]. A caller's callback may itself use the stream, so a
    [Close] carries what the caller's [onClose] callback does if this
    close invokes it. *)
Inductive Call `{Transport} :=
| Send (msg : Req)
| Close (onClose : list Call).

Definition grpcStream_write_call `{Transport} (msg : Req)
  : M StreamState unit :=
  emit (GrpcWrite msg);;
  match grpcStream_write msg with
  | Some e => throw (Raised e)
  | None => mret tt
  end.

Definition sendFn `{Transport} (msg : Req) : M StreamState unit :=
  st ← get;
  if negb (closed st) then
    emit (LogDebug LOG_TAG "GRPC stream sending:");;
    try_catch (grpcStream_write_call msg)
      (fun e =>
         emit (LogError "Failure sending:");;
         emit (LogError "Error:");;
         throw e)
  else
    emit (LogDebug LOG_TAG "Not sending because gRPC stream is closed:").

(** [close]; [callOnClose] is [stream.callOnClose]. *)
Definition close `{Transport}
    (callOnClose : option FirestoreError.t -> M StreamState unit)
    (err : option FirestoreError.t) : M StreamState unit :=
  st ← get;
  if negb (closed st) then
    put {| closed := true |};;
    callOnClose err;;
    emit GrpcEnd
  else mret tt.

Definition closeFn `{Transport}
    (callOnClose : option FirestoreError.t -> M StreamState unit)
  : M StreamState unit :=
  emit (LogDebug LOG_TAG "GRPC stream closed locally via close().");;
  close callOnClose None.

(** Runs [f] on the elements of [l] in order, up to the first that throws. *)
Definition forEach `{Transport} {S A : Type} (f : A -> M S unit)
  : list A -> M S unit :=
  fix go (l : list A) : M S unit :=
    match l with
    | [] => mret tt
    | x :: l' => f x;; go l'
    end.

(** The caller's use of the stream. Modelled from the spec: the bridge's
    [send] and [close] are [sendFn] and [closeFn], and [callOnClose]
    invokes the caller's close callback with the error. *)
Fixpoint perform `{Transport} (c : Call) : M StreamState unit :=
  match c with
  | Send msg => sendFn msg
  | Close onClose =>
      closeFn (fun err => emit (CallOnClose err);; forEach perform onClose)
  end.

(** A callback of the caller: its calls in order, up to the first that
    throws. *)
Definition performAll `{Transport} (l : list Call) : M StreamState unit :=
  forEach perform l.

Definition callOnOpen `{Transport} (onOpen : list Call)
  : M StreamState unit :=
  emit CallOnOpen;; performAll onOpen.

Definition callOnMessage `{Transport} (msg : Resp) (onMessage : list Call)
  : M StreamState unit :=
  emit (CallOnMessage msg);; performAll onMessage.

Definition callOnClose `{Transport} (onClose : list Call)
    (err : option FirestoreError.t) : M StreamState unit :=
  emit (CallOnClose err);; performAll onClose.

(** The listeners [openStream] registers on the grpc stream. Each event
    that reaches a callback of the caller carries what that callback does. *)
Definition onData `{Transport} (msg : Resp) (onMessage : list Call)
  : M StreamState unit :=
  st ← get;
  if negb (closed st) then
    emit (LogDebug LOG_TAG "GRPC stream received:");;
    callOnMessage msg onMessage
  else mret tt.

Definition onEnd `{Transport} (onClose : list Call) : M StreamState unit :=
  emit (LogDebug LOG_TAG "GRPC stream ended.");;
  close (callOnClose onClose) None.

Definition onFinish `{Transport} : M StreamState unit :=
  st ← get;
  lift (assert (closed st)
          ("Received " +:+ dquote +:+ "finish" +:+ dquote
             +:+ " event without close() being called.")).

Definition onError `{Transport} (grpcError : ServiceError.t)
    (onClose : list Call) : M StreamState unit :=
  emit (LogDebug LOG_TAG "GRPC stream error. Code:");;
  let code := mapCodeFromRpcCode (ServiceError.code grpcError) in
  close (callOnClose onClose)
        (Some {| FirestoreError.code := code;
                 FirestoreError.message := ServiceError.message grpcError |}).

Definition onStatus `{Transport} (status : StatusObject.t)
  : M StreamState unit :=
  st ← get;
  lift (assert (closed st)
          ("status event received before " +:+ dquote +:+ "end" +:+ dquote
             +:+ " or " +:+ dquote +:+ "error" +:+ dquote +:+ ". "
             +:+ "code: " +:+ pretty (StatusObject.code status)
             +:+ " details: " +:+ StatusObject.details status)).

(** The callback given to [setTimeout]. *)
Definition onTimeout `{Transport} (onOpen : list Call) : M StreamState unit :=
  callOnOpen onOpen.

(** [openStream] up to its [return]: the stream starts not closed, with
    the open notification scheduled. *)
Definition openStream `{Transport} (rpcName : string) (token : option Token)
  : M GrpcConnection StreamState :=
  rpc ← getRpcCallable rpcName token;
  emit (DuplexCall (boundMethod rpc));;
  emit (LogDebug LOG_TAG "Opening GRPC stream");;
  emit SetTimeout0;;
  mret {| closed := false |}.

(** Everything that can happen to an open stream: a call by the caller, an
    event of the grpc stream, the timer. *)
Inductive Event `{Transport} :=
| Local (c : Call)
| GrpcData (msg : Resp) (onMessage : list Call)
| GrpcEnded (onClose : list Call)
| GrpcFinish
| GrpcError (grpcError : ServiceError.t) (onClose : list Call)
| GrpcStatus (status : StatusObject.t)
| TimerFired (onOpen : list Call).

Definition dispatch `{Transport} (ev : Event) : M StreamState unit :=
  match ev with
  | Local c => perform c
  | GrpcData msg onMessage => onData msg onMessage
  | GrpcEnded onClose => onEnd onClose
  | GrpcFinish => onFinish
  | GrpcError grpcError onClose => onError grpcError onClose
  | GrpcStatus status => onStatus status
  | TimerFired onOpen => onTimeout onOpen
  end.

(** A run of events: the final state, every call made, and what each event's
    handler returned or threw. *)
Fixpoint run `{Transport} (evs : list Event) (st : StreamState)
  : StreamState * list Effect * list (Result unit) :=
  match evs with
  | [] => (st, [], [])
  | ev :: rest =>
      match dispatch ev st with
      | (st1, t1, r) =>
          match run rest st1 with
          | (st2, t2, rs) => (st2, t1 ++ t2, r :: rs)
          end
      end
  end.

(** ** Reading a call log *)


Definition isHeadersCreated `{Transport} (e : Effect) : bool :=
  match e with HeadersCreated _ => true | _ => false end.

Definition isDelivery `{Transport} (e : Effect) : bool :=
  match e with
  | CallOnOpen | CallOnMessage _ | CallOnClose _ => true
  | _ => false
  end.

Definition isLogDebug `{Transport} (e : Effect) : bool :=
  match e with LogDebug _ _ => true | _ => false end.


Definition headerComputations `{Transport} (tr : list Effect) : nat :=
  length (List.filter isHeadersCreated tr).

(** The arguments of the close notifications, in order. *)
Fixpoint closeNotifications `{Transport} (tr : list Effect)
  : list (option FirestoreError.t) :=
  match tr with
  | [] => []
  | CallOnClose err :: tr' => err :: closeNotifications tr'
  | _ :: tr' => closeNotifications tr'
  end.

(** The calls that reach the caller's callbacks, in order. *)
Definition delivered `{Transport} (tr : list Effect) : list Effect :=
  List.filter isDelivery tr.

(** The messages written to the grpc stream, in order. *)
Fixpoint written `{Transport} (tr : list Effect) : list Req :=
  match tr with
  | [] => []
  | GrpcWrite msg :: tr' => msg :: written tr'
  | _ :: tr' => written tr'
  end.

(** The messages handed to the caller's message callback, in order. *)
Fixpoint messagesDelivered `{Transport} (tr : list Effect) : list Resp :=
  match tr with
  | [] => []
  | CallOnMessage msg :: tr' => msg :: messagesDelivered tr'
  | _ :: tr' => messagesDelivered tr'
  end.

Definition timerEvent `{Transport} (ev : Event) : bool :=
  match ev with
  | TimerFired _ => true
  | _ => false
  end.

(** A log whose deliveries are messages first and close notifications
    after them. *)
Definition messagesThenCloses `{Transport} (tr : list Effect) : Prop :=
  delivered tr
  = map CallOnMessage (messagesDelivered tr)
      ++ map CallOnClose (closeNotifications tr).

(** Nothing but debug logging. *)
Definition quiet `{Transport} (tr : list Effect) : bool :=
  forallb isLogDebug tr.

(** The three close triggers at the top level of a run, and the argument
    each passes to [close]. *)
Definition closeTrigger `{Transport} (ev : Event) : bool :=
  match ev with
  | Local (Close _) | GrpcEnded _ | GrpcError _ _ => true
  | _ => false
  end.

Definition triggerError `{Transport} (ev : Event) : option FirestoreError.t :=
  match ev with
  | GrpcError grpcError _ =>
      Some {| FirestoreError.code :=
                mapCodeFromRpcCode (ServiceError.code grpcError);
              FirestoreError.message := ServiceError.message grpcError |}
  | _ => None
  end.



(** The precondition [createHeaders] asserts. *)
Definition oauthOrNull (token : option Token) : bool :=
  match token with
  | None => true
  | Some t => bool_decide (type t = "OAuth")
  end.

(** What building a new stub for [token] throws, if it throws: the failed
    assertion of [createHeaders], or what the stub's constructor raises. *)
Definition constructionThrows `{Transport} (this : GrpcConnection)
    (token : option Token) : option Exception :=
  match createHeaders (databaseInfo this) token with
  | Throw e => Some e
  | Return credentials =>
      match Firestore_new (host (databaseInfo this)) credentials with
      | Some e => Some (Raised e)
      | None => None
      end
  end.

(** The responses among the events of a readable stream. *)
Fixpoint responsesOf `{Transport} (evs : list ReadableEvent) : list Resp :=
  match evs with
  | [] => []
  | ReadableData response :: rest => response :: responsesOf rest
  | _ :: rest => responsesOf rest
  end.

(** The deferred of a streaming call after the events [evs]: responses
    leave it alone, an end resolves it with the address of [results], an
    error rejects it. *)
Fixpoint settle `{Transport} (evs : list ReadableEvent) (p : Promise nat)
  : Promise nat :=
  match evs with
  | [] => p
  | ReadableData _ :: rest => settle rest p
  | ReadableEnd :: rest => settle rest (resolve 0 p)
  | ReadableError ge :: rest =>
      settle rest
        (reject {| FirestoreError.code :=
                     mapCodeFromRpcCode (ServiceError.code ge);
                   FirestoreError.message := ServiceError.message ge |} p)
  end.

(** ** The bridge's protocol, read off a call log

    Where a stream stands after a log: still open, closed with the caller
    notified and the grpc stream not yet ended, or ended. *)
Inductive Phase :=
| StreamOpen
| Notified
| Ended.

(** One call of the log: a write or a message delivery needs an open
    stream; the close notification takes an open stream to [Notified]; the
    end of the grpc stream takes [Notified] to [Ended]; logging, the open
    notification and the calls made before the stream exists are allowed
    anywhere. [None]: the call is out of order. *)
Definition protocolStep `{Transport} (p : Phase) (e : Effect)
  : option Phase :=
  match e with
  | GrpcWrite _ | CallOnMessage _ =>
      match p with StreamOpen => Some StreamOpen | _ => None end
  | CallOnClose _ =>
      match p with StreamOpen => Some Notified | _ => None end
  | GrpcEnd =>
      match p with Notified => Some Ended | _ => None end
  | _ => Some p
  end.

Fixpoint protocol `{Transport} (p : Phase) (tr : list Effect)
  : option Phase :=
  match tr with
  | [] => Some p
  | e :: tr' =>
      match protocolStep p e with
      | Some p' => protocol p' tr'
      | None => None
      end
  end.

Definition phaseOf (st : StreamState) : Phase :=
  if closed st then Ended else StreamOpen.

(** A computation keeps to the protocol when its log takes the phase of
    the state it starts in to the phase of the state it ends in. *)
Definition keepsProtocol `{Transport} {A : Type} (m : M StreamState A)
  : Prop :=
  forall st, protocol (phaseOf st) (m st).1.2 = Some (phaseOf (m st).1.1).

(** The invocations of a method of the stub in a log. *)
Definition isRpcCall `{Transport} (e : Effect) : bool :=
  match e with
  | UnaryCall _ _ | ServerStreamCall _ _ | DuplexCall _ => true
  | _ => false
  end.

Definition rpcCalls `{Transport} (tr : list Effect) : list Effect :=
  List.filter isRpcCall tr.

(** A [data] event whose message callback only sends. *)
Definition dataThenSends `{Transport} (d : Resp * list Req) : Event :=
  GrpcData d.1 (map Send d.2).

(** What [send] returns to its caller for [msg] on an active stream. *)
Definition sendResult `{Transport} (msg : Req) : Result unit :=
  match grpcStream_write msg with
  | Some e => Throw (Raised e)
  | None => Return tt
  end.

(** Unfolds the monad's operations in the goal. *)
Ltac unfold_monad :=
  unfold mbind, mret, M_bind, M_ret, bind, ret, get, put, emit, throw,
    lift, try_catch in *.

(** ** A concrete environment, for examples *)

Definition exampleTransport : Transport := {|
  Req := nat;
  Resp := nat;
  Code := string;
  mapCodeFromRpcCode := fun c =>
    if (c =? 14)%Z then "unavailable"
    else if (c =? 7)%Z then "permission-denied"
    else "unknown";
  node_version := "8.11.1";
  SDK_VERSION := "4.13.0";
  grpcVersion := "1.10.1";
  Firestore_new := fun host _ =>
    if bool_decide (host = "") then Some "Error: invalid host" else None;
  stub_has := fun m =>
    bool_decide (m = "listen") || bool_decide (m = "write")
      || bool_decide (m = "commit") || bool_decide (m = "batchGetDocuments");
  grpcStream_write := fun msg =>
    if Nat.eqb msg 0 then Some "Error: illegal value" else None
|}.

Definition exampleDatabase : DatabaseInfo :=
  {| databaseId := {| projectId := "p"; database := "d" |}; host := "h" |}.

Definition exampleToken : Token :=
  {| type := "OAuth"; authHeaders := {[ "Authorization" := "Bearer t" ]} |}.




Definition firstPartyToken : Token :=
  {| type := "FirstParty"; authHeaders := ∅ |}.

Definition unavailable : ServiceError.t :=
  {| ServiceError.code := 14;
     ServiceError.message := "transport unavailable" |}.

(** * Properties *)

Section HeaderComposition.
Context `{Transport}.



Lemma createHeaders_oauthOrNull (db : DatabaseInfo) (tok : option Token) :
  createHeaders db tok
  = if oauthOrNull tok
    then Return {| channelCredentials_ssl := true;
                   callCredentials := metadataGenerator db tok |}
    else Throw (AssertionFailed "If provided, token must be OAuth").
Proof.
  unfold createHeaders, oauthOrNull, assert.
  destruct tok as [t|]; [destruct (bool_decide _) |]; reflexivity.
Qed.


End HeaderComposition.

Section StubCache.
Context `{Transport}.

Lemma strictEquals_true (a b : JsValue) : strictEquals a b = true <-> a = b.
Proof.
  destruct a, b; simpl; split; try congruence; try discriminate.
  - intros Heq. apply bool_decide_eq_true in Heq. congruence.
  - intros [= ->]. apply bool_decide_eq_true. reflexivity.
Qed.

Lemma sameToken_true (tokenA tokenB : option Token) :
  sameToken tokenA tokenB = true
  <-> authorizationOf tokenA = authorizationOf tokenB.
Proof. unfold sameToken. apply strictEquals_true. Qed.

Lemma sameToken_false (tokenA tokenB : option Token) :
  sameToken tokenA tokenB = false
  <-> authorizationOf tokenA <> authorizationOf tokenB.
Proof.
  rewrite <- sameToken_true. destruct (sameToken tokenA tokenB); split;
    congruence.
Qed.

(** The cached branch: nothing is logged, computed or built. *)
Lemma ensureActiveStub_cached (this : GrpcConnection) (tok : option Token) :
  needsNewStub this tok = false ->
  exists cached,
    cachedStub this = Some cached /\
    ensureActiveStub tok this = (this, [], Return (stub cached)).
Proof.
  intros Hneeds. unfold ensureActiveStub. unfold_monad. rewrite Hneeds.
  unfold needsNewStub in Hneeds.
  destruct (cachedStub this) as [cached|] eqn:Hcache; [| discriminate].
  exists cached. split; reflexivity.
Qed.

(** The rebuilding branch, in full. *)
Lemma ensureActiveStub_rebuild (this : GrpcConnection) (tok : option Token) :
  needsNewStub this tok = true ->
  ensureActiveStub tok this =
    match createHeaders (databaseInfo this) tok with
    | Throw e =>
        (this,
         [LogDebug LOG_TAG "Creating Firestore stub."; HeadersCreated tok],
         Throw e)
    | Return credentials =>
        match Firestore_new (host (databaseInfo this)) credentials with
        | Some e =>
            (this,
             [LogDebug LOG_TAG "Creating Firestore stub."; HeadersCreated tok;
              StubConstructed (host (databaseInfo this))],
             Throw (Raised e))
        | None =>
            let newStub := {| stubId := stubsCreated this;
                              stubHost := host (databaseInfo this);
                              stubCredentials := credentials |} in
            ({| databaseInfo := databaseInfo this;
                cachedStub := Some {| stub := newStub; token := tok |};
                stubsCreated := S (stubsCreated this) |},
             [LogDebug LOG_TAG "Creating Firestore stub."; HeadersCreated tok;
              StubConstructed (host (databaseInfo this))],
             Return newStub)
        end
    end.
Proof.
  intros Hneeds. unfold ensureActiveStub, newFirestore. unfold_monad.
  rewrite Hneeds. simpl.
  destruct (createHeaders (databaseInfo this) tok) as [credentials|e]; simpl;
    [| reflexivity].
  destruct (Firestore_new (host (databaseInfo this)) credentials); reflexivity.
Qed.







(** C8. When a call has to build a new stub and building it throws [e]
    (the assertion of [createHeaders] fails, or the [Firestore] constructor
    raises), the call throws [e] to its caller and the connection, its
    cached stub and token included, is exactly as before the call. *)
Theorem ensureActiveStub_failure_keeps_cache
    (this : GrpcConnection) (tok : option Token) (e : Exception) :
  needsNewStub this tok = true ->
  constructionThrows this tok = Some e ->
  (ensureActiveStub tok this).2 = Throw e
  /\ (ensureActiveStub tok this).1.1 = this
  /\ cachedStub (ensureActiveStub tok this).1.1 = cachedStub this.
Proof.
  intros Hneeds Hthrows. rewrite (ensureActiveStub_rebuild _ _ Hneeds).
  unfold constructionThrows in Hthrows.
  destruct (createHeaders (databaseInfo this) tok) as [credentials|e'].
  - destruct (Firestore_new _ _) as [e'|]; [| discriminate].
    injection Hthrows as <-. repeat split.
  - injection Hthrows as <-. repeat split.
Qed.

(** Whatever makes a call throw, the connection is left as it was. *)
Lemma ensureActiveStub_throw_unchanged
    (this this' : GrpcConnection) (tok : option Token) (tr : list Effect)
    (e : Exception) :
  ensureActiveStub tok this = (this', tr, Throw e) -> this' = this.
Proof.
  destruct (needsNewStub this tok) eqn:Hneeds.
  - rewrite (ensureActiveStub_rebuild _ _ Hneeds).
    destruct (createHeaders _ _); [destruct (Firestore_new _ _) |];
      simpl; congruence.
  - destruct (ensureActiveStub_cached _ _ Hneeds) as (cached & _ & ->).
    congruence.
Qed.


End StubCache.

Section Adapters.
Context `{Transport}.

(** What one invocation of the completion callback does to a promise. *)
Lemma invokeRPC_callback_state (rpcName : string)
    (grpcError : option ServiceError.t) (value : option Resp)
    (p : Promise (option Resp)) :
  (invokeRPC_callback rpcName grpcError value p).1.1 =
    match grpcError with
    | Some ge =>
        reject {| FirestoreError.code :=
                    mapCodeFromRpcCode (ServiceError.code ge);
                  FirestoreError.message := ServiceError.message ge |} p
    | None => resolve value p
    end.
Proof. destruct grpcError; reflexivity. Qed.

(** A settled promise stays as it is, whatever the completion callback is
    invoked with afterwards. *)
Lemma invokeRPC_completions_settled (rpcName : string)
    (completions : list (option ServiceError.t * option Resp))
    (p : Promise (option Resp)) :
  p <> Pending -> invokeRPC_completions rpcName completions p = p.
Proof.
  revert p. induction completions as [| [grpcError value] rest IH];
    intros p Hp; simpl; [reflexivity |].
  rewrite invokeRPC_callback_state.
  assert (forall q, (q = p) -> invokeRPC_completions rpcName rest q = p) as Hq
    by (intros q ->; apply IH, Hp).
  apply Hq. destruct grpcError, p; simpl; congruence.
Qed.

Lemma invokeRPC_returns_pending (rpcName : string) (request : Req)
    (tok : option Token) (this this' : GrpcConnection) (tr : list Effect)
    (p : Promise (option Resp)) :
  invokeRPC rpcName request tok this = (this', tr, Return p) -> p = Pending.
Proof.
  unfold invokeRPC. unfold_monad.
  destruct (getRpcCallable rpcName tok this) as [[c t] [rpc|e]]; simpl;
    congruence.
Qed.

(** C5. The promise an [invokeRPC] call returns is pending, and the first
    invocation of the completion callback settles it for good: with a
    transport error it is rejected with the [FirestoreError] whose code is
    [mapCodeFromRpcCode] of the error's status code and whose message is
    the error's message; without one it is resolved with the response
    value. Exactly one of the two happens, and no later invocation changes
    the promise. *)
Theorem invokeRPC_settles_once (rpcName : string) (request : Req)
    (tok : option Token) (this this' : GrpcConnection) (tr : list Effect)
    (p : Promise (option Resp)) :
  invokeRPC rpcName request tok this = (this', tr, Return p) ->
  p = Pending /\
  forall (grpcError : option ServiceError.t) (value : option Resp)
         (later : list (option ServiceError.t * option Resp)),
    invokeRPC_completions rpcName ((grpcError, value) :: later) p =
      match grpcError with
      | Some ge =>
          Rejected {| FirestoreError.code :=
                        mapCodeFromRpcCode (ServiceError.code ge);
                      FirestoreError.message := ServiceError.message ge |}
      | None => Fulfilled value
      end.
Proof.
  intros Hcall. apply invokeRPC_returns_pending in Hcall. subst p.
  split; [reflexivity |]. intros grpcError value later. simpl.
  rewrite invokeRPC_callback_state.
  destruct grpcError; simpl; apply invokeRPC_completions_settled;
    discriminate.
Qed.

Lemma invokeStreamingRPC_initial (rpcName : string) (request : Req)
    (tok : option Token) (this this' : GrpcConnection) (tr : list Effect)
    (c : StreamingCall) :
  invokeStreamingRPC rpcName request tok this = (this', tr, Return c) ->
  c = {| heap := [[]]; results := 0; responseDeferred := Pending |}.
Proof.
  unfold invokeStreamingRPC. unfold_monad.
  destruct (getRpcCallable rpcName tok this) as [[c' t] [rpc|e]]; simpl;
    congruence.
Qed.

Lemma streaming_events_eq (rpcName : string) (evs : list ReadableEvent)
    (rs : list Resp) (p : Promise nat) :
  streaming_events rpcName evs
    {| heap := [rs]; results := 0; responseDeferred := p |}
  = {| heap := [rs ++ responsesOf evs]; results := 0;
       responseDeferred := settle evs p |}.
Proof.
  revert rs p. induction evs as [| ev rest IH]; intros rs p; simpl.
  - rewrite app_nil_r. reflexivity.
  - destruct ev as [response | | ge]; simpl.
    + unfold Array_push; simpl. rewrite IH, <- app_assoc. reflexivity.
    + rewrite IH. reflexivity.
    + rewrite IH. reflexivity.
Qed.

Lemma settle_settled (evs : list ReadableEvent) (p : Promise nat) :
  p <> Pending -> settle evs p = p.
Proof.
  revert p. induction evs as [| ev rest IH]; intros p Hp; simpl;
    [reflexivity |].
  destruct ev; [apply IH, Hp | |]; destruct p; simpl; try congruence;
    apply IH; discriminate.
Qed.

Lemma settle_data (rs : list Resp) (rest : list ReadableEvent)
    (p : Promise nat) :
  settle (map ReadableData rs ++ rest) p = settle rest p.
Proof. induction rs as [| r rs IH]; simpl; [reflexivity | exact IH]. Qed.

Lemma responsesOf_data (rs : list Resp) (rest : list ReadableEvent) :
  responsesOf (map ReadableData rs ++ rest) = rs ++ responsesOf rest.
Proof.
  induction rs as [| r rs IH]; simpl; [reflexivity |].
  rewrite IH. reflexivity.
Qed.

(** C4. For the call an [invokeStreamingRPC] returns, on a stream that
    keeps the contract of a readable stream (no response after its end):
    when the stream delivers the responses [rs] and then a clean end, the
    promise is resolved with exactly [rs], in delivery order (the empty
    sequence when the end comes first), and stays so whatever end or error
    follows; when it delivers [rs] and then an error, the promise is
    rejected with the [FirestoreError] of [mapCodeFromRpcCode] of the
    status code and the error's message, no response is delivered, and
    nothing that follows changes that. *)
Theorem invokeStreamingRPC_outcome (rpcName : string) (request : Req)
    (tok : option Token) (this this' : GrpcConnection) (tr : list Effect)
    (c : StreamingCall) (rs : list Resp)
    (afterEnd afterError : list ReadableEvent) (ge : ServiceError.t) :
  invokeStreamingRPC rpcName request tok this = (this', tr, Return c) ->
  responsesOf afterEnd = [] ->
  observe (streaming_events rpcName
             (map ReadableData rs ++ ReadableEnd :: afterEnd) c)
  = ResolvedWith rs
  /\ observe (streaming_events rpcName (ReadableEnd :: afterEnd) c)
     = ResolvedWith []
  /\ observe (streaming_events rpcName
                (map ReadableData rs ++ ReadableError ge :: afterError) c)
     = RejectedWith
         {| FirestoreError.code :=
              mapCodeFromRpcCode (ServiceError.code ge);
            FirestoreError.message := ServiceError.message ge |}.
Proof.
  intros Hcall Hquiet. apply invokeStreamingRPC_initial in Hcall. subst c.
  assert (forall rs' : list Resp,
      observe (streaming_events rpcName
                 (map ReadableData rs' ++ ReadableEnd :: afterEnd)
                 {| heap := [[]]; results := 0; responseDeferred := Pending |})
      = ResolvedWith rs') as Hend.
  { intros rs'. rewrite streaming_events_eq, settle_data. simpl.
    rewrite settle_settled by discriminate. unfold observe; simpl.
    rewrite responsesOf_data. simpl. rewrite Hquiet, app_nil_r.
    reflexivity. }
  split; [apply Hend |]. split; [apply (Hend []) |].
  rewrite streaming_events_eq, settle_data. simpl.
  rewrite settle_settled by discriminate. reflexivity.
Qed.

End Adapters.

Section DuplexStream.
Context `{Transport}.

Lemma quiet_app (tr1 tr2 : list Effect) :
  quiet (tr1 ++ tr2) = quiet tr1 && quiet tr2.
Proof. apply forallb_app. Qed.

Lemma closeNotifications_app (tr1 tr2 : list Effect) :
  closeNotifications (tr1 ++ tr2)
  = closeNotifications tr1 ++ closeNotifications tr2.
Proof.
  induction tr1 as [| e tr1 IH]; simpl; [reflexivity |].
  destruct e; simpl; rewrite ?IH; reflexivity.
Qed.

Lemma written_app (tr1 tr2 : list Effect) :
  written (tr1 ++ tr2) = written tr1 ++ written tr2.
Proof.
  induction tr1 as [| e tr1 IH]; simpl; [reflexivity |].
  destruct e; simpl; rewrite ?IH; reflexivity.
Qed.

Lemma delivered_app (tr1 tr2 : list Effect) :
  delivered (tr1 ++ tr2) = delivered tr1 ++ delivered tr2.
Proof. apply List.filter_app. Qed.

(** A quiet log holds no close notification, no delivery and no write. *)
Lemma quiet_silent (tr : list Effect) :
  quiet tr = true ->
  closeNotifications tr = [] /\ delivered tr = [] /\ written tr = [].
Proof.
  induction tr as [| e tr IH]; simpl; [auto |].
  destruct e; simpl; try discriminate. exact IH.
Qed.

(** [sendFn], case by case. *)
Lemma sendFn_eq (msg : Req) (st : StreamState) :
  sendFn msg st =
    if closed st then
      (st, [LogDebug LOG_TAG "Not sending because gRPC stream is closed:"],
       Return tt)
    else
      match grpcStream_write msg with
      | None =>
          (st, [LogDebug LOG_TAG "GRPC stream sending:"; GrpcWrite msg],
           Return tt)
      | Some e =>
          (st, [LogDebug LOG_TAG "GRPC stream sending:"; GrpcWrite msg;
                LogError "Failure sending:"; LogError "Error:"],
           Throw (Raised e))
      end.
Proof.
  unfold sendFn, grpcStream_write_call. unfold_monad.
  destruct st as [[|]]; simpl; [reflexivity |].
  destruct (grpcStream_write msg); reflexivity.
Qed.

(** The script inside [perform] is [performAll]. *)
Lemma perform_Close (onClose : list Call) :
  perform (Close onClose) = closeFn (callOnClose onClose).
Proof. reflexivity. Qed.

Lemma performAll_cons (c : Call) (l : list Call) (st : StreamState) :
  performAll (c :: l) st =
    match perform c st with
    | (st1, t1, Return _) =>
        match performAll l st1 with
        | (st2, t2, r) => (st2, t1 ++ t2, r)
        end
    | (st1, t1, Throw e) => (st1, t1, Throw e)
    end.
Proof. reflexivity. Qed.

(** [close] on a closed stream does nothing at all. *)
Lemma close_closed (cb : option FirestoreError.t -> M StreamState unit)
    (err : option FirestoreError.t) (st : StreamState) :
  closed st = true -> close cb err st = (st, [], Return tt).
Proof. destruct st as [[|]]; [reflexivity | discriminate]. Qed.

(** On a closed stream a call of the caller changes nothing, throws
    nothing and only logs. *)
Lemma perform_closed (c : Call) (st : StreamState) :
  closed st = true ->
  exists tr, perform c st = (st, tr, Return tt) /\ quiet tr = true.
Proof.
  intros Hc. destruct c as [msg | onClose].
  - simpl. rewrite sendFn_eq, Hc. eexists; split; reflexivity.
  - rewrite perform_Close. unfold closeFn. unfold_monad. simpl.
    rewrite (close_closed _ _ _ Hc). eexists; split; reflexivity.
Qed.

Lemma performAll_closed (l : list Call) (st : StreamState) :
  closed st = true ->
  exists tr, performAll l st = (st, tr, Return tt) /\ quiet tr = true.
Proof.
  intros Hc. induction l as [| c l (tr2 & IH & Hq2)].
  - exists []. split; reflexivity.
  - destruct (perform_closed c st Hc) as (tr1 & Hp & Hq1).
    rewrite performAll_cons, Hp, IH. exists (tr1 ++ tr2).
    split; [reflexivity |]. rewrite quiet_app, Hq1, Hq2. reflexivity.
Qed.

(** [close] on an active stream: the stream is closed first, then the
    caller is notified once, with [err], then the grpc stream is ended.
    Whatever the caller's callback does with the stream in between only
    logs. *)
Lemma close_active (onClose : list Call) (err : option FirestoreError.t)
    (st : StreamState) :
  closed st = false ->
  exists tr,
    close (callOnClose onClose) err st
    = ({| closed := true |}, CallOnClose err :: tr ++ [GrpcEnd], Return tt)
    /\ quiet tr = true.
Proof.
  intros Hc. destruct st as [[|]]; [discriminate |].
  destruct (performAll_closed onClose {| closed := true |} eq_refl)
    as (tr & Hp & Hq).
  exists tr. split; [| exact Hq].
  unfold close, callOnClose. unfold_monad. simpl. rewrite Hp. reflexivity.
Qed.

Lemma closeNotifications_close (err : option FirestoreError.t)
    (tr : list Effect) :
  quiet tr = true ->
  closeNotifications (CallOnClose err :: tr ++ [GrpcEnd]) = [err].
Proof.
  intros Hq. simpl. rewrite closeNotifications_app.
  destruct (quiet_silent tr Hq) as (-> & _). reflexivity.
Qed.

(** The three triggers on an active stream. *)
Lemma trigger_active (t : Event) (st : StreamState) :
  closeTrigger t = true -> closed st = false ->
  (dispatch t st).1.1 = {| closed := true |}
  /\ closeNotifications (dispatch t st).1.2 = [triggerError t]
  /\ (dispatch t st).2 = Return tt.
Proof.
  intros Ht Hc.
  destruct t as [[msg | onClose] | | onClose | | ge onClose | |];
    try discriminate; unfold dispatch.
  - rewrite perform_Close. unfold closeFn. unfold_monad.
    destruct (close_active onClose None st Hc) as (tr & -> & Hq). simpl.
    rewrite closeNotifications_app.
    destruct (quiet_silent tr Hq) as (-> & _). repeat split.
  - unfold onEnd. unfold_monad.
    destruct (close_active onClose None st Hc) as (tr & -> & Hq). simpl.
    rewrite closeNotifications_app.
    destruct (quiet_silent tr Hq) as (-> & _). repeat split.
  - unfold onError. unfold_monad.
    destruct (close_active onClose
                (Some {| FirestoreError.code :=
                           mapCodeFromRpcCode (ServiceError.code ge);
                         FirestoreError.message := ServiceError.message ge |})
                st Hc) as (tr & -> & Hq). simpl.
    rewrite closeNotifications_app.
    destruct (quiet_silent tr Hq) as (-> & _). repeat split.
Qed.

(** Any event on a closed stream leaves it closed and notifies no close;
    a close trigger, moreover, returns normally and only logs. *)
Lemma dispatch_closed (ev : Event) (st : StreamState) :
  closed st = true ->
  (dispatch ev st).1.1 = st
  /\ closeNotifications (dispatch ev st).1.2 = []
  /\ (closeTrigger ev = true ->
      (dispatch ev st).2 = Return tt /\ quiet (dispatch ev st).1.2 = true).
Proof.
  intros Hc.
  destruct ev as [c | msg onMessage | onClose | | ge onClose | status | onOpen];
    simpl.
  - destruct (perform_closed c st Hc) as (tr & -> & Hq). simpl.
    destruct (quiet_silent tr Hq) as (-> & _). repeat split; assumption.
  - unfold onData. unfold_monad. rewrite Hc. simpl.
    repeat split; discriminate.
  - unfold onEnd. unfold_monad. simpl. rewrite (close_closed _ _ _ Hc).
    repeat split.
  - unfold onFinish, assert. unfold_monad. rewrite Hc. simpl.
    repeat split; discriminate.
  - unfold onError. unfold_monad. simpl. rewrite (close_closed _ _ _ Hc).
    repeat split.
  - unfold onStatus, assert. unfold_monad. rewrite Hc. simpl.
    repeat split; discriminate.
  - unfold onTimeout, callOnOpen. unfold_monad. simpl.
    destruct (performAll_closed onOpen st Hc) as (tr & -> & Hq). simpl.
    destruct (quiet_silent tr Hq) as (-> & _). repeat split; discriminate.
Qed.

(** Started on an active stream, a call, a callback script or an event
    notifies a close exactly when it leaves the stream closed, and then
    once. *)
Lemma perform_active (c : Call) (st : StreamState) :
  closed st = false ->
  length (closeNotifications (perform c st).1.2)
  = if closed (perform c st).1.1 then 1 else 0.
Proof.
  intros Hc. destruct c as [msg | onClose].
  - simpl. rewrite sendFn_eq, Hc.
    destruct (grpcStream_write msg); simpl; rewrite Hc; reflexivity.
  - change (perform (Close onClose) st)
      with (dispatch (Local (Close onClose)) st).
    destruct (trigger_active (Local (Close onClose)) st eq_refl Hc)
      as (-> & -> & _). reflexivity.
Qed.

Lemma performAll_active (l : list Call) (st : StreamState) :
  closed st = false ->
  length (closeNotifications (performAll l st).1.2)
  = if closed (performAll l st).1.1 then 1 else 0.
Proof.
  revert st. induction l as [| c l IH]; intros st Hc.
  - simpl. rewrite Hc. reflexivity.
  - rewrite performAll_cons. pose proof (perform_active c st Hc) as Hp.
    destruct (perform c st) as [[st1 t1] [[]|e]]; simpl in *; [| exact Hp].
    destruct (closed st1) eqn:Hc1.
    + destruct (performAll_closed l st1 Hc1) as (t2 & -> & Hq). simpl.
      rewrite closeNotifications_app, length_app, Hp, Hc1.
      destruct (quiet_silent t2 Hq) as (-> & _). reflexivity.
    + specialize (IH st1 Hc1).
      destruct (performAll l st1) as [[st2 t2] r]; simpl in *.
      rewrite closeNotifications_app, length_app, Hp, IH. reflexivity.
Qed.

Lemma dispatch_active (ev : Event) (st : StreamState) :
  closed st = false ->
  length (closeNotifications (dispatch ev st).1.2)
  = if closed (dispatch ev st).1.1 then 1 else 0.
Proof.
  intros Hc.
  destruct ev as [c | msg onMessage | onClose | | ge onClose | status | onOpen].
  - apply perform_active, Hc.
  - simpl. unfold onData, callOnMessage. unfold_monad. rewrite Hc. simpl.
    pose proof (performAll_active onMessage st Hc) as Hp.
    destruct (performAll onMessage st) as [[st1 t1] r]; exact Hp.
  - destruct (trigger_active (GrpcEnded onClose) st eq_refl Hc)
      as (-> & -> & _). reflexivity.
  - simpl. unfold onFinish, assert. unfold_monad. rewrite Hc. simpl.
    rewrite ?Hc. reflexivity.
  - destruct (trigger_active (GrpcError ge onClose) st eq_refl Hc)
      as (-> & -> & _). reflexivity.
  - simpl. unfold onStatus, assert. unfold_monad. rewrite Hc. simpl.
    rewrite ?Hc. reflexivity.
  - simpl. unfold onTimeout, callOnOpen. unfold_monad. simpl.
    pose proof (performAll_active onOpen st Hc) as Hp.
    destruct (performAll onOpen st) as [[st1 t1] r]; exact Hp.
Qed.

Lemma run_cons (ev : Event) (evs : list Event) (st : StreamState) :
  run (ev :: evs) st =
    ((run evs (dispatch ev st).1.1).1.1,
     (dispatch ev st).1.2 ++ (run evs (dispatch ev st).1.1).1.2,
     (dispatch ev st).2 :: (run evs (dispatch ev st).1.1).2).
Proof.
  simpl. destruct (dispatch ev st) as [[st1 t1] r]. simpl.
  destruct (run evs st1) as [[st2 t2] rs]. reflexivity.
Qed.

Lemma run_app (pre post : list Event) (st : StreamState) :
  run (pre ++ post) st =
    ((run post (run pre st).1.1).1.1,
     (run pre st).1.2 ++ (run post (run pre st).1.1).1.2,
     (run pre st).2 ++ (run post (run pre st).1.1).2).
Proof.
  revert st. induction pre as [| ev pre IH]; intros st.
  - simpl. destruct (run post st) as [[st2 t2] rs]. reflexivity.
  - rewrite <- app_comm_cons, !run_cons, IH. simpl.
    rewrite app_assoc. reflexivity.
Qed.

(** Once closed, a stream stays closed and no close is notified again. *)
Lemma run_closed (evs : list Event) (st : StreamState) :
  closed st = true ->
  (run evs st).1.1 = st /\ closeNotifications (run evs st).1.2 = [].
Proof.
  intros Hc. induction evs as [| ev evs (IHst & IHn)]; [split; reflexivity |].
  rewrite run_cons. simpl. rewrite closeNotifications_app.
  destruct (dispatch_closed ev st Hc) as (-> & -> & _).
  split; [exact IHst | exact IHn].
Qed.

(** Over a whole run the caller is notified of a close once if the stream
    ends up closed and never otherwise. *)
Lemma run_close_count (evs : list Event) (st : StreamState) :
  closed st = false ->
  length (closeNotifications (run evs st).1.2)
  = if closed (run evs st).1.1 then 1 else 0.
Proof.
  revert st. induction evs as [| ev evs IH]; intros st Hc.
  - simpl. rewrite Hc. reflexivity.
  - rewrite run_cons. simpl. rewrite closeNotifications_app, length_app.
    rewrite (dispatch_active ev st Hc).
    destruct (closed (dispatch ev st).1.1) eqn:Hc1.
    + destruct (run_closed evs _ Hc1) as (-> & ->). rewrite Hc1. reflexivity.
    + rewrite (IH _ Hc1). reflexivity.
Qed.

Lemma openStream_initial (rpcName : string) (tok : option Token)
    (this this' : GrpcConnection) (tr : list Effect) (st : StreamState) :
  openStream rpcName tok this = (this', tr, Return st) ->
  st = {| closed := false |}.
Proof.
  unfold openStream. unfold_monad.
  destruct (getRpcCallable rpcName tok this) as [[c t] [rpc|e]]; simpl;
    congruence.
Qed.

(** C1. On a stream returned by [openStream], whatever the events and the
    caller's calls, re-entrant ones included: the caller is notified of a
    close once if the stream ends up closed and never otherwise; the first
    of the three triggers (a [close()] call, a remote end, a remote error)
    to fire on the still active stream is the one that notifies, with its
    own argument (no error, or the translated error), and nothing notifies
    before or after it; from then on every trigger, a repeated [close()]
    included, returns normally, leaves the state alone and does nothing
    but log. *)
Theorem close_notified_exactly_once (rpcName : string) (tok : option Token)
    (this this' : GrpcConnection) (tr0 : list Effect) (st0 : StreamState)
    (pre post : list Event) (t : Event) :
  openStream rpcName tok this = (this', tr0, Return st0) ->
  closeTrigger t = true ->
  closed (run pre st0).1.1 = false ->
  closeNotifications (run pre st0).1.2 = []
  /\ closeNotifications (run (pre ++ t :: post) st0).1.2 = [triggerError t]
  /\ closed (run (pre ++ t :: post) st0).1.1 = true
  /\ (forall t' : Event,
        closeTrigger t' = true ->
        let st := (run (pre ++ t :: post) st0).1.1 in
        (dispatch t' st).1.1 = st
        /\ (dispatch t' st).2 = Return tt
        /\ quiet (dispatch t' st).1.2 = true)
  /\ (forall evs : list Event,
        length (closeNotifications (run evs st0).1.2)
        = if closed (run evs st0).1.1 then 1 else 0).
Proof.
  intros Hopen Ht Hpre. apply openStream_initial in Hopen. subst st0.
  assert (closeNotifications (run pre {| closed := false |}).1.2 = [])
    as Hnone.
  { apply length_zero_iff_nil. rewrite run_close_count by reflexivity.
    rewrite Hpre. reflexivity. }
  destruct (trigger_active t _ Ht Hpre) as (Hst & Hn & _).
  assert (closed (dispatch t (run pre {| closed := false |}).1.1).1.1 = true)
    as Hclosed by (rewrite Hst; reflexivity).
  destruct (run_closed post _ Hclosed) as (Hst' & Hn').
  assert (closed (run (pre ++ t :: post) {| closed := false |}).1.1 = true)
    as Hfinal.
  { rewrite run_app, run_cons. simpl. rewrite Hst'. exact Hclosed. }
  split; [exact Hnone |]. split; [| split; [exact Hfinal | split]].
  - rewrite run_app, run_cons. simpl.
    rewrite closeNotifications_app, closeNotifications_app, Hnone, Hn, Hn'.
    reflexivity.
  - intros t' Ht' st.
    destruct (dispatch_closed t' st Hfinal) as (H1 & _ & H3).
    destruct (H3 Ht') as (H4 & H5). auto.
  - intros evs. apply run_close_count. reflexivity.
Qed.

(** The calls [getRpcCallable] makes reach no callback of the caller. *)
Lemma getRpcCallable_delivers_nothing (rpcName : string) (tok : option Token)
    (this : GrpcConnection) :
  delivered (getRpcCallable rpcName tok this).1.2 = [].
Proof.
  unfold getRpcCallable. unfold_monad.
  assert (delivered (ensureActiveStub tok this).1.2 = []) as Hd.
  { destruct (needsNewStub this tok) eqn:Hneeds.
    - rewrite (ensureActiveStub_rebuild _ _ Hneeds).
      destruct (createHeaders _ _); [destruct (Firestore_new _ _) |];
        reflexivity.
    - destruct (ensureActiveStub_cached _ _ Hneeds) as (cached & _ & ->).
      reflexivity. }
  destruct (ensureActiveStub tok this) as [[c t] [s|e]]; simpl in *;
    [| exact Hd].
  destruct (assert _ _); simpl; rewrite app_nil_r; exact Hd.
Qed.

Lemma openStream_delivers_nothing (rpcName : string) (tok : option Token)
    (this : GrpcConnection) :
  delivered (openStream rpcName tok this).1.2 = [].
Proof.
  unfold openStream. unfold_monad.
  pose proof (getRpcCallable_delivers_nothing rpcName tok this) as Hd.
  destruct (getRpcCallable rpcName tok this) as [[c t] [rpc|e]]; simpl in *;
    [| exact Hd].
  rewrite delivered_app, Hd. reflexivity.
Qed.

(** C6. [send] on an active stream writes the message to the grpc stream;
    if the write throws, the exception is logged and rethrown to the
    caller of [send] and the stream stays active. [send] on a closed
    stream writes nothing, throws nothing and only logs. A stream returned
    by [openStream] is active and no callback, the open notification
    included, has been delivered yet; a [send] at that point is written to
    the grpc stream. *)
Theorem sendFn_forwards_unless_closed (rpcName : string) (tok : option Token)
    (this this' : GrpcConnection) (tr0 : list Effect) (st0 : StreamState)
    (msg : Req) (st : StreamState) :
  openStream rpcName tok this = (this', tr0, Return st0) ->
  sendFn msg st =
    (if closed st then
       (st, [LogDebug LOG_TAG "Not sending because gRPC stream is closed:"],
        Return tt)
     else
       match grpcStream_write msg with
       | None =>
           (st, [LogDebug LOG_TAG "GRPC stream sending:"; GrpcWrite msg],
            Return tt)
       | Some e =>
           (st, [LogDebug LOG_TAG "GRPC stream sending:"; GrpcWrite msg;
                 LogError "Failure sending:"; LogError "Error:"],
            Throw (Raised e))
       end)
  /\ closed st0 = false
  /\ delivered tr0 = []
  /\ written (dispatch (Local (Send msg)) st0).1.2 = [msg].
Proof.
  intros Hopen. split; [apply sendFn_eq |].
  pose proof (openStream_delivers_nothing rpcName tok this) as Hd.
  rewrite Hopen in Hd. simpl in Hd.
  apply openStream_initial in Hopen. subst st0.
  split; [reflexivity |]. split; [exact Hd |].
  simpl. rewrite sendFn_eq. simpl.
  destruct (grpcStream_write msg); reflexivity.
Qed.

(** C9. The [finish] and [status] listeners do nothing on a closed stream.
    On an active one they throw the failed assertion: no callback of the
    caller is invoked, nothing is logged and the stream stays active. *)
Theorem post_close_signals_asserted (st : StreamState)
    (status : StatusObject.t) :
  onFinish st =
    (st, [],
     if closed st then Return tt
     else Throw (AssertionFailed
                   ("Received " +:+ dquote +:+ "finish" +:+ dquote
                      +:+ " event without close() being called.")))
  /\ onStatus status st =
    (st, [],
     if closed st then Return tt
     else Throw (AssertionFailed
                   ("status event received before " +:+ dquote +:+ "end"
                      +:+ dquote +:+ " or " +:+ dquote +:+ "error" +:+ dquote
                      +:+ ". " +:+ "code: "
                      +:+ pretty (StatusObject.code status)
                      +:+ " details: " +:+ StatusObject.details status))).
Proof.
  unfold onFinish, onStatus, assert. unfold_monad.
  destruct st as [[|]]; split; reflexivity.
Qed.

(** What reaches the caller from an event on a closed stream: nothing,
    except the open notification when the timer fires. *)
Lemma delivered_closed (ev : Event) (st : StreamState) :
  closed st = true ->
  delivered (dispatch ev st).1.2 =
    match ev with
    | TimerFired _ => [CallOnOpen]
    | _ => []
    end.
Proof.
  intros Hc.
  destruct ev as [c | msg onMessage | onClose | | ge onClose | status | onOpen];
    simpl.
  - destruct (perform_closed c st Hc) as (tr & -> & Hq).
    apply (quiet_silent tr Hq).
  - unfold onData. unfold_monad. simpl. rewrite ?Hc. reflexivity.
  - unfold onEnd. unfold_monad. simpl. rewrite (close_closed _ _ _ Hc).
    reflexivity.
  - unfold onFinish, assert. unfold_monad. simpl. rewrite ?Hc. reflexivity.
  - unfold onError. unfold_monad. simpl. rewrite (close_closed _ _ _ Hc).
    reflexivity.
  - unfold onStatus, assert. unfold_monad. simpl. rewrite ?Hc. reflexivity.
  - unfold onTimeout, callOnOpen. unfold_monad. simpl.
    destruct (performAll_closed onOpen st Hc) as (tr & -> & Hq). simpl.
    destruct (quiet_silent tr Hq) as (_ & Hd & _).
    unfold delivered in *. simpl. rewrite Hd. reflexivity.
Qed.

(** ** The order of deliveries when the open notification comes first *)

Lemma messagesDelivered_app (tr1 tr2 : list Effect) :
  messagesDelivered (tr1 ++ tr2)
  = messagesDelivered tr1 ++ messagesDelivered tr2.
Proof.
  induction tr1 as [| e tr1 IH]; simpl; [reflexivity |].
  destruct e; simpl; rewrite ?IH; reflexivity.
Qed.

Lemma quiet_no_message (tr : list Effect) :
  quiet tr = true -> messagesDelivered tr = [].
Proof.
  induction tr as [| e tr IH]; simpl; [auto |].
  destruct e; simpl; try discriminate. exact IH.
Qed.

Lemma quiet_messagesThenCloses (tr : list Effect) :
  quiet tr = true -> messagesThenCloses tr.
Proof.
  intros Hq. unfold messagesThenCloses.
  destruct (quiet_silent tr Hq) as (-> & -> & _).
  rewrite (quiet_no_message tr Hq). reflexivity.
Qed.

(** Two such logs in a row make one, when the first notifies no close or
    the second delivers no message. *)
Lemma messagesThenCloses_app (tr1 tr2 : list Effect) :
  messagesThenCloses tr1 -> messagesThenCloses tr2 ->
  closeNotifications tr1 = [] \/ messagesDelivered tr2 = [] ->
  messagesThenCloses (tr1 ++ tr2).
Proof.
  unfold messagesThenCloses. intros H1 H2 Hor.
  rewrite delivered_app, messagesDelivered_app, closeNotifications_app.
  rewrite H1, H2, !map_app.
  destruct Hor as [-> | ->]; simpl; rewrite ?app_nil_r, <- ?app_assoc;
    reflexivity.
Qed.

(** [close] delivers no message, and one close notification when the
    stream was active. *)
Lemma close_deliveries (onClose : list Call) (err : option FirestoreError.t)
    (st : StreamState) :
  messagesThenCloses (close (callOnClose onClose) err st).1.2
  /\ messagesDelivered (close (callOnClose onClose) err st).1.2 = [].
Proof.
  destruct (closed st) eqn:Hc.
  - rewrite (close_closed _ _ _ Hc). split; reflexivity.
  - destruct (close_active onClose err st Hc) as (tr & -> & Hq). simpl.
    unfold messagesThenCloses. simpl.
    rewrite messagesDelivered_app, closeNotifications_app.
    unfold delivered in *. rewrite List.filter_app.
    destruct (quiet_silent tr Hq) as (-> & Hd & _).
    unfold delivered in Hd. rewrite Hd, (quiet_no_message tr Hq).
    split; reflexivity.
Qed.

(** A call of the caller delivers no message, and a close notification
    only when it closes the stream. *)
Lemma perform_deliveries (c : Call) (st : StreamState) :
  messagesThenCloses (perform c st).1.2
  /\ messagesDelivered (perform c st).1.2 = [].
Proof.
  destruct c as [msg | onClose].
  - simpl. rewrite sendFn_eq.
    destruct (closed st); [| destruct (grpcStream_write msg)];
      split; reflexivity.
  - rewrite perform_Close. unfold closeFn. unfold_monad.
    destruct (close_deliveries onClose None st) as (Hp & Hm).
    destruct (close (callOnClose onClose) None st) as [[st1 t1] r].
    simpl in *. split; [exact Hp | exact Hm].
Qed.

Lemma performAll_deliveries (l : list Call) (st : StreamState) :
  messagesThenCloses (performAll l st).1.2
  /\ messagesDelivered (performAll l st).1.2 = [].
Proof.
  revert st. induction l as [| c l IH]; intros st; [split; reflexivity |].
  rewrite performAll_cons.
  destruct (perform_deliveries c st) as (Hp & Hm).
  destruct (perform c st) as [[st1 t1] [[]|e]]; simpl in *; [| auto].
  destruct (IH st1) as (Hp2 & Hm2).
  destruct (performAll l st1) as [[st2 t2] r]; simpl in *.
  split.
  - apply messagesThenCloses_app; auto.
  - rewrite messagesDelivered_app, Hm, Hm2. reflexivity.
Qed.

Lemma dispatch_deliveries (ev : Event) (st : StreamState) :
  timerEvent ev = false -> messagesThenCloses (dispatch ev st).1.2.
Proof.
  intros Hev.
  destruct ev as [c | msg onMessage | onClose | | ge onClose | status | onOpen];
    try discriminate.
  - apply perform_deliveries.
  - simpl. unfold onData, callOnMessage. unfold_monad.
    destruct (closed st); simpl; [reflexivity |].
    destruct (performAll_deliveries onMessage st) as (Hp & Hm).
    destruct (performAll onMessage st) as [[st1 t1] r]; simpl in *.
    unfold messagesThenCloses in *. simpl. unfold delivered in *. simpl.
    rewrite Hp, Hm. reflexivity.
  - simpl. unfold onEnd. unfold_monad.
    destruct (close_deliveries onClose None st) as (Hp & Hm).
    destruct (close (callOnClose onClose) None st) as [[st1 t1] r].
    exact Hp.
  - simpl. unfold onFinish, assert. unfold_monad.
    destruct (closed st); reflexivity.
  - simpl. unfold onError. unfold_monad.
    destruct (close_deliveries onClose
                (Some {| FirestoreError.code :=
                           mapCodeFromRpcCode (ServiceError.code ge);
                         FirestoreError.message := ServiceError.message ge |})
                st) as (Hp & Hm).
    destruct (close (callOnClose onClose) _ st) as [[st1 t1] r].
    exact Hp.
  - simpl. unfold onStatus, assert. unfold_monad.
    destruct (closed st); reflexivity.
Qed.

(** No message is delivered on a closed stream. *)
Lemma dispatch_closed_no_message (ev : Event) (st : StreamState) :
  closed st = true -> messagesDelivered (dispatch ev st).1.2 = [].
Proof.
  intros Hc.
  destruct ev as [c | msg onMessage | onClose | | ge onClose | status | onOpen];
    simpl.
  - apply perform_deliveries.
  - unfold onData. unfold_monad. simpl. rewrite ?Hc. reflexivity.
  - unfold onEnd. unfold_monad. simpl. rewrite (close_closed _ _ _ Hc).
    reflexivity.
  - unfold onFinish, assert. unfold_monad. simpl. rewrite ?Hc. reflexivity.
  - unfold onError. unfold_monad. simpl. rewrite (close_closed _ _ _ Hc).
    reflexivity.
  - unfold onStatus, assert. unfold_monad. simpl. rewrite ?Hc. reflexivity.
  - unfold onTimeout, callOnOpen. unfold_monad. simpl.
    destruct (performAll_deliveries onOpen st) as (_ & Hm).
    destruct (performAll onOpen st) as [[st1 t1] r]. exact Hm.
Qed.

Lemma run_closed_no_message (evs : list Event) (st : StreamState) :
  closed st = true -> messagesDelivered (run evs st).1.2 = [].
Proof.
  intros Hc. induction evs as [| ev evs IH]; [reflexivity |].
  rewrite run_cons. simpl. rewrite messagesDelivered_app.
  rewrite (dispatch_closed_no_message ev st Hc).
  destruct (dispatch_closed ev st Hc) as (-> & _). exact IH.
Qed.

(** Without the timer, the deliveries of a run are messages, in arrival
    order, and then the close notifications. *)
Lemma run_deliveries (evs : list Event) (st : StreamState) :
  forallb (fun ev => negb (timerEvent ev)) evs = true ->
  messagesThenCloses (run evs st).1.2.
Proof.
  revert st. induction evs as [| ev evs IH]; intros st Hevs;
    [reflexivity |].
  simpl in Hevs. apply andb_true_iff in Hevs as (Hev & Hevs).
  apply negb_true_iff in Hev.
  rewrite run_cons. simpl.
  apply messagesThenCloses_app;
    [apply dispatch_deliveries, Hev | apply IH, Hevs |].
  destruct (closed st) eqn:Hc.
  - right. apply run_closed_no_message.
    destruct (dispatch_closed ev st Hc) as (-> & _). exact Hc.
  - destruct (closed (dispatch ev st).1.1) eqn:Hc1.
    + right. apply run_closed_no_message, Hc1.
    + left. apply length_zero_iff_nil.
      rewrite (dispatch_active ev st Hc), Hc1. reflexivity.
Qed.

(** X12. When the timer fires before any grpc event and before any [close()],
    after any number of [send] calls, the caller sees the open
    notification, then the messages, then at most one close notification,
    and nothing after that. *)
Lemma deliveries_ordered_when_open_first (sends : list Req)
    (onOpen : list Call) (evs : list Event) :
  forallb (fun ev => negb (timerEvent ev)) evs = true ->
  let tr :=
    (run (map (fun msg => Local (Send msg)) sends
            ++ TimerFired onOpen :: evs) {| closed := false |}).1.2 in
  delivered tr
  = CallOnOpen :: map CallOnMessage (messagesDelivered tr)
      ++ map CallOnClose (closeNotifications tr)
  /\ length (closeNotifications tr) <= 1.
Proof.
  intros Hevs tr. split.
  - subst tr. rewrite run_app.
    assert (forall st, closed st = false ->
              (run (map (fun msg => Local (Send msg)) sends) st).1.1 = st
              /\ delivered
                   (run (map (fun msg => Local (Send msg)) sends) st).1.2 = []
              /\ messagesDelivered
                   (run (map (fun msg => Local (Send msg)) sends) st).1.2 = []
              /\ closeNotifications
                   (run (map (fun msg => Local (Send msg)) sends) st).1.2 = [])
      as Hsends.
    { intros st Hc. induction sends as [| msg sends IH];
        [repeat split |].
      simpl map. rewrite run_cons. simpl. rewrite sendFn_eq, Hc.
      rewrite delivered_app, messagesDelivered_app, closeNotifications_app.
      destruct IH as (IH1 & IH2 & IH3 & IH4).
      destruct (grpcStream_write msg); simpl; rewrite ?IH1, ?IH2, ?IH3, ?IH4;
        repeat split. }
    destruct (Hsends {| closed := false |} eq_refl) as (Hs1 & Hs2 & Hs3 & Hs4).
    cbn [fst snd]. rewrite Hs1, delivered_app, messagesDelivered_app,
      closeNotifications_app, Hs2, Hs3, Hs4. cbn [app map].
    rewrite run_cons. cbn [fst snd dispatch].
    unfold onTimeout, callOnOpen. unfold_monad. cbn [fst snd].
    destruct (performAll_deliveries onOpen {| closed := false |}) as (Hp & Hm).
    pose proof (performAll_active onOpen {| closed := false |} eq_refl) as Hn.
    destruct (performAll onOpen {| closed := false |}) as [[st1 t1] r].
    simpl in *.
    pose proof (run_deliveries evs st1 Hevs) as Hrest.
    assert (messagesThenCloses (t1 ++ (run evs st1).1.2)) as Hall.
    { apply messagesThenCloses_app; [exact Hp | exact Hrest |].
      destruct (closed st1) eqn:Hc1.
      - right. apply run_closed_no_message, Hc1.
      - left. apply length_zero_iff_nil. exact Hn. }
    unfold messagesThenCloses in Hall. unfold delivered in *. simpl.
    rewrite Hall. reflexivity.
  - subst tr. rewrite run_close_count by reflexivity.
    destruct (closed _); lia.
Qed.


End DuplexStream.

(** * Further properties of the connection *)

Section CacheAndDispatch.
Context `{Transport}.

(** X1. [sameToken] is an equivalence on tokens, null included: reflexive,
    symmetric and transitive. *)
Theorem sameToken_equivalence (a b c : option Token) :
  sameToken a a = true
  /\ sameToken a b = sameToken b a
  /\ implb (sameToken a b && sameToken b c) (sameToken a c) = true.
Proof.
  split; [apply sameToken_true; reflexivity |]. split.
  - destruct (sameToken a b) eqn:Hab; symmetry.
    + apply sameToken_true. symmetry. apply sameToken_true, Hab.
    + apply sameToken_false. intros Heq. apply sameToken_false in Hab.
      apply Hab. symmetry. exact Heq.
  - destruct (sameToken a b) eqn:Hab; [| reflexivity].
    destruct (sameToken b c) eqn:Hbc; [| reflexivity]. simpl.
    apply sameToken_true in Hab, Hbc.
    assert (sameToken a c = true) as ->
      by (apply sameToken_true; congruence).
    reflexivity.
Qed.

(** What a call that returns leaves in the cache: the stub it returned,
    with a token equivalent to the requested one. *)
Lemma ensureActiveStub_returns_cached (this this1 : GrpcConnection)
    (tok : option Token) (tr : list Effect) (s : Stub) :
  ensureActiveStub tok this = (this1, tr, Return s) ->
  exists cachedToken,
    cachedStub this1 = Some {| stub := s; token := cachedToken |}
    /\ sameToken cachedToken tok = true.
Proof.
  destruct (needsNewStub this tok) eqn:Hneeds.
  - rewrite (ensureActiveStub_rebuild _ _ Hneeds).
    destruct (createHeaders _ _); [destruct (Firestore_new _ _) |];
      try discriminate.
    intros [= <- <- <-]. exists tok. split; [reflexivity |].
    apply sameToken_true. reflexivity.
  - destruct (ensureActiveStub_cached _ _ Hneeds) as (cached & Hcache & ->).
    intros [= <- <- <-]. destruct cached as [s cachedToken].
    exists cachedToken. split; [exact Hcache |].
    unfold needsNewStub in Hneeds. rewrite Hcache in Hneeds.
    apply negb_false_iff in Hneeds. exact Hneeds.
Qed.

(** X2. The cache holds the most recently used token only. After a call
    that returns, the same token again gets the same stub with no call
    made and the connection unchanged, and any token not equivalent to it
    needs a new stub, even one the connection had a stub for before. *)
Theorem ensureActiveStub_most_recent_only (this this1 : GrpcConnection)
    (tok other : option Token) (tr : list Effect) (s : Stub) :
  ensureActiveStub tok this = (this1, tr, Return s) ->
  sameToken tok other = false ->
  ensureActiveStub tok this1 = (this1, [], Return s)
  /\ needsNewStub this1 other = true
  /\ headerComputations (ensureActiveStub other this1).1.2 = 1.
Proof.
  intros Hcall Hother.
  destruct (ensureActiveStub_returns_cached _ _ _ _ _ Hcall)
    as (cachedToken & Hcache & Hsame).
  assert (needsNewStub this1 other = true) as Hneeds.
  { unfold needsNewStub. rewrite Hcache. apply negb_true_iff.
    apply sameToken_false. apply sameToken_false in Hother.
    apply sameToken_true in Hsame. congruence. }
  split; [| split; [exact Hneeds |]].
  - destruct (ensureActiveStub_cached this1 tok) as (cached & Hc & ->).
    + unfold needsNewStub. rewrite Hcache, Hsame. reflexivity.
    + rewrite Hcache in Hc. injection Hc as <-. reflexivity.
  - rewrite (ensureActiveStub_rebuild _ _ Hneeds).
    destruct (createHeaders _ _); [destruct (Firestore_new _ _) |];
      reflexivity.
Qed.

(** [getRpcCallable], from what [ensureActiveStub] does. *)
Lemma getRpcCallable_eq (rpcName : string) (tok : option Token)
    (this : GrpcConnection) :
  getRpcCallable rpcName tok this =
    match ensureActiveStub tok this with
    | (this1, tr, Return s) =>
        if stub_has (lowerFirst rpcName)
        then (this1, tr,
              Return {| boundStub := s; boundMethod := lowerFirst rpcName |})
        else (this1, tr, Throw (AssertionFailed ("Unknown RPC: " +:+ rpcName)))
    | (this1, tr, Throw e) => (this1, tr, Throw e)
    end.
Proof.
  unfold getRpcCallable, assert. unfold_monad.
  destruct (ensureActiveStub tok this) as [[this1 tr] [s|e]]; [| reflexivity].
  destruct (stub_has (lowerFirst rpcName)); simpl; rewrite ?app_nil_r;
    reflexivity.
Qed.

(** The three entry points, from what [getRpcCallable] does. *)
Lemma invokeRPC_eq (rpcName : string) (request : Req) (tok : option Token)
    (this : GrpcConnection) :
  invokeRPC rpcName request tok this =
    match getRpcCallable rpcName tok this with
    | (this1, tr, Return rpc) =>
        (this1,
         tr ++ [LogDebug LOG_TAG
                  ("RPC '" +:+ rpcName +:+ "' invoked with request:");
                UnaryCall (boundMethod rpc) request],
         Return Pending)
    | (this1, tr, Throw e) => (this1, tr, Throw e)
    end.
Proof.
  unfold invokeRPC. unfold_monad.
  destruct (getRpcCallable rpcName tok this) as [[this1 tr] [rpc|e]];
    reflexivity.
Qed.

Lemma invokeStreamingRPC_eq (rpcName : string) (request : Req)
    (tok : option Token) (this : GrpcConnection) :
  invokeStreamingRPC rpcName request tok this =
    match getRpcCallable rpcName tok this with
    | (this1, tr, Return rpc) =>
        (this1,
         tr ++ [LogDebug LOG_TAG
                  ("RPC '" +:+ rpcName
                     +:+ "' invoked (streaming) with request:");
                ServerStreamCall (boundMethod rpc) request],
         Return {| heap := [[]]; results := 0; responseDeferred := Pending |})
    | (this1, tr, Throw e) => (this1, tr, Throw e)
    end.
Proof.
  unfold invokeStreamingRPC. unfold_monad.
  destruct (getRpcCallable rpcName tok this) as [[this1 tr] [rpc|e]];
    reflexivity.
Qed.

Lemma openStream_eq (rpcName : string) (tok : option Token)
    (this : GrpcConnection) :
  openStream rpcName tok this =
    match getRpcCallable rpcName tok this with
    | (this1, tr, Return rpc) =>
        (this1,
         tr ++ [DuplexCall (boundMethod rpc);
                LogDebug LOG_TAG "Opening GRPC stream"; SetTimeout0],
         Return {| closed := false |})
    | (this1, tr, Throw e) => (this1, tr, Throw e)
    end.
Proof.
  unfold openStream. unfold_monad.
  destruct (getRpcCallable rpcName tok this) as [[this1 tr] [rpc|e]];
    reflexivity.
Qed.

(** X3. With a token that is neither null nor OAuth, when a new stub is
    needed, each of the three entry points throws the assertion failure of
    [createHeaders]: no stub is constructed, no method of a stub is
    invoked, no timer is set, and the connection is left as it was. *)
Theorem entry_points_reject_other_credentials (rpcName : string)
    (request : Req) (tok : option Token) (this : GrpcConnection) :
  oauthOrNull tok = false ->
  needsNewStub this tok = true ->
  invokeRPC rpcName request tok this
  = (this, [LogDebug LOG_TAG "Creating Firestore stub."; HeadersCreated tok],
     Throw (AssertionFailed "If provided, token must be OAuth"))
  /\ invokeStreamingRPC rpcName request tok this
     = (this,
        [LogDebug LOG_TAG "Creating Firestore stub."; HeadersCreated tok],
        Throw (AssertionFailed "If provided, token must be OAuth"))
  /\ openStream rpcName tok this
     = (this,
        [LogDebug LOG_TAG "Creating Firestore stub."; HeadersCreated tok],
        Throw (AssertionFailed "If provided, token must be OAuth")).
Proof.
  intros Hok Hneeds.
  rewrite invokeRPC_eq, invokeStreamingRPC_eq, openStream_eq,
    getRpcCallable_eq, (ensureActiveStub_rebuild _ _ Hneeds),
    createHeaders_oauthOrNull, Hok.
  repeat split.
Qed.

(** X4. A name the stub has no method for makes each entry point throw
    the [Unknown RPC] assertion failure, naming the RPC as given, after the
    stub has been obtained: a stub built for the call stays cached, and no
    method is invoked and no timer set. *)
Theorem entry_points_reject_unknown_rpc (rpcName : string) (request : Req)
    (tok : option Token) (this this1 : GrpcConnection) (tr : list Effect)
    (s : Stub) :
  stub_has (lowerFirst rpcName) = false ->
  ensureActiveStub tok this = (this1, tr, Return s) ->
  invokeRPC rpcName request tok this
  = (this1, tr, Throw (AssertionFailed ("Unknown RPC: " +:+ rpcName)))
  /\ invokeStreamingRPC rpcName request tok this
     = (this1, tr, Throw (AssertionFailed ("Unknown RPC: " +:+ rpcName)))
  /\ openStream rpcName tok this
     = (this1, tr, Throw (AssertionFailed ("Unknown RPC: " +:+ rpcName)))
  /\ exists cachedToken,
       cachedStub this1 = Some {| stub := s; token := cachedToken |}.
Proof.
  intros Hhas Hstub.
  rewrite invokeRPC_eq, invokeStreamingRPC_eq, openStream_eq,
    getRpcCallable_eq, Hstub, Hhas.
  repeat split.
  destruct (ensureActiveStub_returns_cached _ _ _ _ _ Hstub)
    as (cachedToken & Hcache & _).
  exists cachedToken. exact Hcache.
Qed.

Lemma rpcCalls_app (tr1 tr2 : list Effect) :
  rpcCalls (tr1 ++ tr2) = rpcCalls tr1 ++ rpcCalls tr2.
Proof. apply List.filter_app. Qed.

Lemma ensureActiveStub_no_rpc (tok : option Token) (this : GrpcConnection) :
  rpcCalls (ensureActiveStub tok this).1.2 = [].
Proof.
  destruct (needsNewStub this tok) eqn:Hneeds.
  - rewrite (ensureActiveStub_rebuild _ _ Hneeds).
    destruct (createHeaders _ _); [destruct (Firestore_new _ _) |];
      reflexivity.
  - destruct (ensureActiveStub_cached _ _ Hneeds) as (cached & _ & ->).
    reflexivity.
Qed.

(** X5. Each entry point invokes a method of the stub exactly when it
    returns, and then once: the method named by the RPC name with its
    first letter lowered, with the request as given. A call that throws
    has invoked nothing. *)
Theorem entry_points_invoke_once (rpcName : string) (request : Req)
    (tok : option Token) (this : GrpcConnection) :
  rpcCalls (invokeRPC rpcName request tok this).1.2
  = match (invokeRPC rpcName request tok this).2 with
    | Return _ => [UnaryCall (lowerFirst rpcName) request]
    | Throw _ => []
    end
  /\ rpcCalls (invokeStreamingRPC rpcName request tok this).1.2
     = match (invokeStreamingRPC rpcName request tok this).2 with
       | Return _ => [ServerStreamCall (lowerFirst rpcName) request]
       | Throw _ => []
       end
  /\ rpcCalls (openStream rpcName tok this).1.2
     = match (openStream rpcName tok this).2 with
       | Return _ => [DuplexCall (lowerFirst rpcName)]
       | Throw _ => []
       end.
Proof.
  rewrite invokeRPC_eq, invokeStreamingRPC_eq, openStream_eq,
    getRpcCallable_eq.
  pose proof (ensureActiveStub_no_rpc tok this) as Hnone.
  destruct (ensureActiveStub tok this) as [[this1 tr] [s|e]]; simpl in *;
    [| auto].
  destruct (stub_has (lowerFirst rpcName)); simpl; [| auto].
  rewrite !rpcCalls_app, Hnone. repeat split.
Qed.


End CacheAndDispatch.

Section CollectAdapter.
Context `{Transport}.

(** X8. Without an end or an error the promise of [invokeStreamingRPC]
    stays pending, however many responses arrive, while the [results]
    array collects them in arrival order. *)
Theorem invokeStreamingRPC_pending_until_terminal (rpcName : string)
    (request : Req) (tok : option Token) (this this' : GrpcConnection)
    (tr : list Effect) (c : StreamingCall) (rs : list Resp) :
  invokeStreamingRPC rpcName request tok this = (this', tr, Return c) ->
  observe (streaming_events rpcName (map ReadableData rs) c) = NotSettled
  /\ heap (streaming_events rpcName (map ReadableData rs) c)
       !! results (streaming_events rpcName (map ReadableData rs) c)
     = Some rs.
Proof.
  intros Hcall. apply invokeStreamingRPC_initial in Hcall. subst c.
  rewrite streaming_events_eq.
  pose proof (settle_data rs [] Pending) as Hs. rewrite app_nil_r in Hs.
  pose proof (responsesOf_data rs []) as Hr. rewrite app_nil_r in Hr.
  unfold observe. simpl. rewrite Hs, Hr. simpl. rewrite app_nil_r.
  split; reflexivity.
Qed.

End CollectAdapter.

Section BridgeProtocol.
Context `{Transport}.

Lemma protocol_app (p : Phase) (tr1 tr2 : list Effect) :
  protocol p (tr1 ++ tr2) =
    match protocol p tr1 with
    | Some p' => protocol p' tr2
    | None => None
    end.
Proof.
  revert p. induction tr1 as [| e tr1 IH]; intros p; simpl; [reflexivity |].
  destruct (protocolStep p e); [apply IH | reflexivity].
Qed.

Lemma protocol_quiet (p : Phase) (tr : list Effect) :
  quiet tr = true -> protocol p tr = Some p.
Proof.
  induction tr as [| e tr IH]; simpl; [reflexivity |].
  destruct e; simpl; try discriminate. exact IH.
Qed.

Lemma keepsProtocol_bind {A B : Type} (m : M StreamState A)
    (k : A -> M StreamState B) :
  keepsProtocol m -> (forall a, keepsProtocol (k a)) ->
  keepsProtocol (m ≫= k).
Proof.
  intros Hm Hk st. specialize (Hm st). unfold_monad.
  destruct (m st) as [[s1 t1] [a|e]]; simpl in *; [| exact Hm].
  specialize (Hk a s1). destruct (k a s1) as [[s2 t2] r]; simpl in *.
  rewrite protocol_app, Hm. exact Hk.
Qed.

Lemma keepsProtocol_log (tag msg : string) :
  keepsProtocol (emit (S := StreamState) (LogDebug tag msg)).
Proof. intros st. reflexivity. Qed.

Lemma sendFn_keepsProtocol (msg : Req) : keepsProtocol (sendFn msg).
Proof.
  intros st. rewrite sendFn_eq.
  destruct st as [[|]]; [reflexivity |].
  destruct (grpcStream_write msg); reflexivity.
Qed.

Lemma close_keepsProtocol (onClose : list Call)
    (err : option FirestoreError.t) :
  keepsProtocol (close (callOnClose onClose) err).
Proof.
  intros st. destruct (closed st) eqn:Hc.
  - rewrite (close_closed _ _ _ Hc). simpl. reflexivity.
  - destruct (close_active onClose err st Hc) as (tr & -> & Hq).
    unfold phaseOf at 1. rewrite Hc. simpl.
    rewrite protocol_app, (protocol_quiet _ _ Hq). reflexivity.
Qed.

Lemma perform_keepsProtocol (c : Call) : keepsProtocol (perform c).
Proof.
  destruct c as [msg | onClose]; [apply sendFn_keepsProtocol |].
  rewrite perform_Close. unfold closeFn.
  apply keepsProtocol_bind; [apply keepsProtocol_log |].
  intros _. apply close_keepsProtocol.
Qed.

Lemma performAll_keepsProtocol (l : list Call) :
  keepsProtocol (performAll l).
Proof.
  induction l as [| c l IH]; [intros st; reflexivity |].
  change (performAll (c :: l)) with (perform c ≫= fun _ => performAll l).
  apply keepsProtocol_bind; [apply perform_keepsProtocol | intros _; exact IH].
Qed.

Lemma dispatch_keepsProtocol (ev : Event) : keepsProtocol (dispatch ev).
Proof.
  destruct ev as [c | msg onMessage | onClose | | ge onClose | status | onOpen];
    simpl.
  - apply perform_keepsProtocol.
  - intros st. unfold onData, callOnMessage. unfold_monad.
    destruct (closed st) eqn:Hc; simpl; [unfold phaseOf; rewrite Hc; reflexivity |].
    pose proof (performAll_keepsProtocol onMessage st) as Hp.
    destruct (performAll onMessage st) as [[s1 t1] r]; simpl in *.
    unfold phaseOf at 1. rewrite Hc. simpl.
    unfold phaseOf at 1 in Hp. rewrite Hc in Hp. exact Hp.
  - unfold onEnd.
    apply keepsProtocol_bind; [apply keepsProtocol_log |].
    intros _. apply close_keepsProtocol.
  - intros st. unfold onFinish, assert. unfold_monad.
    destruct st as [[|]]; reflexivity.
  - unfold onError.
    apply keepsProtocol_bind; [apply keepsProtocol_log |].
    intros _. apply close_keepsProtocol.
  - intros st. unfold onStatus, assert. unfold_monad.
    destruct st as [[|]]; reflexivity.
  - intros st. unfold onTimeout, callOnOpen. unfold_monad. simpl.
    pose proof (performAll_keepsProtocol onOpen st) as Hp.
    destruct (performAll onOpen st) as [[s1 t1] r]; simpl in *.
    destruct (phaseOf st); exact Hp.
Qed.

(** In a run where every callback of the caller returns, the log takes
    the phase of the starting state to the phase of the final state. *)
Lemma run_keepsProtocol (evs : list Event) (st : StreamState) :
  protocol (phaseOf st) (run evs st).1.2 = Some (phaseOf (run evs st).1.1).
Proof.
  revert st. induction evs as [| ev evs IH]; intros st; [reflexivity |].
  rewrite run_cons. simpl.
  rewrite protocol_app, (dispatch_keepsProtocol ev st). apply IH.
Qed.

(** X9. Every run of caller calls, grpc events and timer firings on a new
    stream keeps the calls in order: a message is written to the grpc
    stream or delivered to the caller only before the close notification;
    the close notification happens at most once; the grpc stream is ended
    at most once and only after the close notification. The stream is
    closed at the end of the run exactly when the close notification has
    happened. *)
Theorem run_keeps_call_order (evs : list Event) :
  exists p,
    protocol StreamOpen (run evs {| closed := false |}).1.2 = Some p
    /\ (p = StreamOpen
        <-> closed (run evs {| closed := false |}).1.1 = false).
Proof.
  exists (phaseOf (run evs {| closed := false |}).1.1).
  split; [apply (run_keepsProtocol evs {| closed := false |}) |].
  unfold phaseOf. destruct (closed _); split; congruence.
Qed.

Lemma performAll_sends_state (msgs : list Req) (st : StreamState) :
  (performAll (map Send msgs) st).1.1 = st.
Proof.
  induction msgs as [| msg msgs IH]; [reflexivity |].
  simpl map. rewrite performAll_cons. simpl perform. rewrite sendFn_eq.
  destruct (closed st); [| destruct (grpcStream_write msg)]; simpl;
    try reflexivity;
    destruct (performAll (map Send msgs) st) as [[s2 t2] r]; exact IH.
Qed.

Lemma data_delivered_in_order (ds : list (Resp * list Req))
    (st : StreamState) :
  closed st = false ->
  (run (map dataThenSends ds) st).1.1 = st
  /\ messagesDelivered (run (map dataThenSends ds) st).1.2 = map fst ds.
Proof.
  intros Hc. induction ds as [| [msg sends] ds (IHst & IHm)];
    [split; reflexivity |].
  simpl map. rewrite run_cons.
  assert ((dispatch (dataThenSends (msg, sends)) st).1.1 = st
          /\ messagesDelivered (dispatch (dataThenSends (msg, sends)) st).1.2
             = [msg]) as (Hst & Hm).
  { unfold dataThenSends. simpl. unfold onData, callOnMessage. unfold_monad.
    rewrite Hc. simpl.
    pose proof (performAll_sends_state sends st) as Hs.
    destruct (performAll_deliveries (map Send sends) st) as (_ & Hn).
    destruct (performAll (map Send sends) st) as [[s1 t1] r]; simpl in *.
    rewrite Hn. split; [exact Hs | reflexivity]. }
  cbn [fst snd]. rewrite messagesDelivered_app, Hst, Hm, IHm.
  split; [exact IHst | reflexivity].
Qed.

Lemma trigger_no_message (t : Event) (st : StreamState) :
  closeTrigger t = true -> messagesDelivered (dispatch t st).1.2 = [].
Proof.
  intros Ht.
  destruct t as [[msg | onClose] | | onClose | | ge onClose | |];
    try discriminate.
  - apply perform_deliveries.
  - simpl. unfold onEnd. unfold_monad.
    destruct (close_deliveries onClose None st) as (_ & Hm).
    destruct (close (callOnClose onClose) None st) as [[s1 t1] r].
    exact Hm.
  - simpl. unfold onError. unfold_monad.
    destruct (close_deliveries onClose
                (Some {| FirestoreError.code :=
                           mapCodeFromRpcCode (ServiceError.code ge);
                         FirestoreError.message := ServiceError.message ge |})
                st) as (_ & Hm).
    destruct (close (callOnClose onClose) _ st) as [[s1 t1] r].
    exact Hm.
Qed.

(** X10. The messages that arrive before the first close trigger are
    handed to the caller each once, in arrival order, also when the
    message callback sends (and a send throws); whatever arrives after the
    trigger is dropped. *)
Theorem messages_delivered_until_close (ds : list (Resp * list Req))
    (t : Event) (post : list Event) :
  closeTrigger t = true ->
  messagesDelivered
    (run (map dataThenSends ds ++ t :: post) {| closed := false |}).1.2
  = map fst ds.
Proof.
  intros Ht. rewrite run_app.
  destruct (data_delivered_in_order ds {| closed := false |} eq_refl)
    as (Hst & Hm).
  cbn [fst snd]. rewrite Hst, messagesDelivered_app, Hm, run_cons.
  cbn [fst snd]. rewrite messagesDelivered_app, (trigger_no_message _ _ Ht).
  destruct (trigger_active t {| closed := false |} Ht eq_refl) as (-> & _).
  rewrite run_closed_no_message by reflexivity.
  rewrite app_nil_r. reflexivity.
Qed.

(** X11. On an active stream every [send] reaches the grpc stream, once
    and in the order of the calls; a write that throws is rethrown to that
    caller only, and the stream stays active for the sends that follow. *)
Theorem sends_written_in_order (msgs : list Req) :
  let out :=
    run (map (fun msg => Local (Send msg)) msgs) {| closed := false |} in
  out.1.1 = {| closed := false |}
  /\ written out.1.2 = msgs
  /\ out.2 = map sendResult msgs.
Proof.
  induction msgs as [| msg msgs (IHst & IHw & IHr)];
    [repeat split |].
  simpl map. cbv zeta. rewrite run_cons. simpl dispatch.
  rewrite sendFn_eq. unfold sendResult at 1. simpl closed. cbv iota.
  destruct (grpcStream_write msg); cbn [fst snd]; rewrite written_app;
    cbv zeta in IHst, IHw, IHr; rewrite IHst, IHw, IHr; repeat split.
Qed.

End BridgeProtocol.

(** * The properties at concrete inputs *)

#[local] Existing Instance exampleTransport.



(** C2 fails on the code. The caller closes the stream returned by
    [openStream] before the timer set by [openStream] fires: the close is
    notified first, and the open notification is still delivered after it. *)
Lemma open_delivered_after_close :
  (openStream "Listen" (Some exampleToken)
     (newGrpcConnection exampleDatabase)).2 = Return {| closed := false |}
  /\ delivered
       (run [Local (Close []); TimerFired []] {| closed := false |}).1.2
     = [CallOnClose None; CallOnOpen].
Proof. split; reflexivity. Qed.

Lemma close_notified_exactly_once_witness :
  closeTrigger (GrpcError unavailable [Close []]) = true
  /\ closed (run [Local (Send 1); GrpcData 5 [Send 2]]
               {| closed := false |}).1.1 = false
  /\ closeNotifications
       (run ([Local (Send 1); GrpcData 5 [Send 2]]
               ++ GrpcError unavailable [Close []]
               :: [Local (Close []); GrpcEnded []; TimerFired []])
            {| closed := false |}).1.2
     = [Some {| FirestoreError.code := "unavailable";
                FirestoreError.message := "transport unavailable" |}].
Proof.
  split; [reflexivity |]. split; [reflexivity |].
  refine (proj1 (proj2
    (close_notified_exactly_once "Listen" (Some exampleToken)
       (newGrpcConnection exampleDatabase)
       (openStream "Listen" (Some exampleToken)
          (newGrpcConnection exampleDatabase)).1.1
       (openStream "Listen" (Some exampleToken)
          (newGrpcConnection exampleDatabase)).1.2
       {| closed := false |}
       [Local (Send 1); GrpcData 5 [Send 2]]
       [Local (Close []); GrpcEnded []; TimerFired []]
       (GrpcError unavailable [Close []])
       _ _ _))); reflexivity.
Defined.



Lemma invokeRPC_settles_once_witness :
  invokeRPC_completions "Commit" [(Some unavailable, None); (None, Some 7)]
    Pending
  = Rejected {| FirestoreError.code := "unavailable";
                FirestoreError.message := "transport unavailable" |}.
Proof.
  refine (proj2
    (invokeRPC_settles_once "Commit" 3 (Some exampleToken)
       (newGrpcConnection exampleDatabase)
       (invokeRPC "Commit" 3 (Some exampleToken)
          (newGrpcConnection exampleDatabase)).1.1
       (invokeRPC "Commit" 3 (Some exampleToken)
          (newGrpcConnection exampleDatabase)).1.2
       Pending _) (Some unavailable) None [(None, Some 7)]).
  reflexivity.
Defined.

Lemma invokeStreamingRPC_outcome_witness :
  responsesOf [ReadableError unavailable; ReadableEnd] = []
  /\ observe (streaming_events "BatchGetDocuments"
                (map ReadableData [4; 5]
                   ++ ReadableEnd :: [ReadableError unavailable; ReadableEnd])
                {| heap := [[]]; results := 0; responseDeferred := Pending |})
     = ResolvedWith [4; 5]
  /\ observe (streaming_events "BatchGetDocuments"
                (map ReadableData [4; 5] ++ ReadableError unavailable
                   :: [ReadableData 6; ReadableEnd])
                {| heap := [[]]; results := 0; responseDeferred := Pending |})
     = RejectedWith {| FirestoreError.code := "unavailable";
                       FirestoreError.message := "transport unavailable" |}.
Proof.
  split; [reflexivity |].
  pose proof
    (invokeStreamingRPC_outcome "BatchGetDocuments" 3 (Some exampleToken)
       (newGrpcConnection exampleDatabase)
       (invokeStreamingRPC "BatchGetDocuments" 3 (Some exampleToken)
          (newGrpcConnection exampleDatabase)).1.1
       (invokeStreamingRPC "BatchGetDocuments" 3 (Some exampleToken)
          (newGrpcConnection exampleDatabase)).1.2
       {| heap := [[]]; results := 0; responseDeferred := Pending |}
       [4; 5] [ReadableError unavailable; ReadableEnd]
       [ReadableData 6; ReadableEnd] unavailable)
    as Houtcome.
  destruct Houtcome as (Hend & _ & Herror).
  - reflexivity.
  - reflexivity.
  - split; [exact Hend | exact Herror].
Defined.

Lemma sendFn_forwards_unless_closed_witness :
  sendFn 0 {| closed := false |}
  = ({| closed := false |},
     [LogDebug LOG_TAG "GRPC stream sending:"; GrpcWrite 0;
      LogError "Failure sending:"; LogError "Error:"],
     Throw (Raised "Error: illegal value"))
  /\ written (dispatch (Local (Send 0)) {| closed := false |}).1.2 = [0].
Proof.
  pose proof
    (sendFn_forwards_unless_closed "Listen" (Some exampleToken)
       (newGrpcConnection exampleDatabase)
       (openStream "Listen" (Some exampleToken)
          (newGrpcConnection exampleDatabase)).1.1
       (openStream "Listen" (Some exampleToken)
          (newGrpcConnection exampleDatabase)).1.2
       {| closed := false |} 0 {| closed := false |})
    as Hsend.
  destruct Hsend as (Hthrow & _ & _ & Hwritten).
  - reflexivity.
  - split; [exact Hthrow | exact Hwritten].
Defined.

Lemma ensureActiveStub_failure_keeps_cache_witness :
  let this :=
    ensureActiveStub_calls [Some exampleToken]
      (newGrpcConnection exampleDatabase) in
  needsNewStub this (Some firstPartyToken) = true
  /\ constructionThrows this (Some firstPartyToken)
     = Some (AssertionFailed "If provided, token must be OAuth")
  /\ (ensureActiveStub (Some firstPartyToken) this).2
     = Throw (AssertionFailed "If provided, token must be OAuth")
  /\ cachedStub (ensureActiveStub (Some firstPartyToken) this).1.1
     = cachedStub this.
Proof.
  intros this.
  assert (needsNewStub this (Some firstPartyToken) = true) as Hneeds
    by reflexivity.
  assert (constructionThrows this (Some firstPartyToken)
          = Some (AssertionFailed "If provided, token must be OAuth"))
    as Hthrows by reflexivity.
  split; [exact Hneeds |]. split; [exact Hthrows |].
  destruct (ensureActiveStub_failure_keeps_cache this (Some firstPartyToken)
              (AssertionFailed "If provided, token must be OAuth")
              Hneeds Hthrows) as (Hthrow & _ & Hcache).
  split; [exact Hthrow | exact Hcache].
Defined.


(** ** The further properties at concrete inputs *)

Lemma ensureActiveStub_most_recent_only_witness :
  sameToken (Some exampleToken) None = false
  /\ needsNewStub
       (ensureActiveStub (Some exampleToken)
          (newGrpcConnection exampleDatabase)).1.1 None = true
  /\ (ensureActiveStub (Some exampleToken)
        (ensureActiveStub (Some exampleToken)
           (newGrpcConnection exampleDatabase)).1.1).1.2 = [].
Proof.
  pose proof
    (ensureActiveStub_most_recent_only
       (newGrpcConnection exampleDatabase)
       (ensureActiveStub (Some exampleToken)
          (newGrpcConnection exampleDatabase)).1.1
       (Some exampleToken) None
       (ensureActiveStub (Some exampleToken)
          (newGrpcConnection exampleDatabase)).1.2
       {| stubId := 0; stubHost := "h";
          stubCredentials :=
            {| channelCredentials_ssl := true;
               callCredentials :=
                 metadataGenerator exampleDatabase (Some exampleToken) |} |}
       eq_refl eq_refl) as (Hagain & Hneeds & _).
  split; [reflexivity |]. split; [exact Hneeds |].
  rewrite Hagain. reflexivity.
Defined.

Lemma entry_points_reject_other_credentials_witness :
  oauthOrNull (Some firstPartyToken) = false
  /\ needsNewStub (newGrpcConnection exampleDatabase) (Some firstPartyToken)
     = true
  /\ (openStream "Listen" (Some firstPartyToken)
        (newGrpcConnection exampleDatabase)).2
     = Throw (AssertionFailed "If provided, token must be OAuth").
Proof.
  split; [reflexivity |]. split; [reflexivity |].
  destruct (entry_points_reject_other_credentials
              (H := exampleTransport) "Listen" 1
              (Some firstPartyToken) (newGrpcConnection exampleDatabase)
              eq_refl eq_refl) as (_ & _ & ->).
  reflexivity.
Defined.

Lemma entry_points_reject_unknown_rpc_witness :
  stub_has (lowerFirst "RunQuery") = false
  /\ (invokeRPC "RunQuery" 1 (Some exampleToken)
        (newGrpcConnection exampleDatabase)).2
     = Throw (AssertionFailed "Unknown RPC: RunQuery")
  /\ cachedStub
       (invokeRPC "RunQuery" 1 (Some exampleToken)
          (newGrpcConnection exampleDatabase)).1.1 <> None.
Proof.
  split; [reflexivity |].
  assert (ensureActiveStub (Some exampleToken)
            (newGrpcConnection exampleDatabase)
          = ((ensureActiveStub (Some exampleToken)
                (newGrpcConnection exampleDatabase)).1.1,
             (ensureActiveStub (Some exampleToken)
                (newGrpcConnection exampleDatabase)).1.2,
             Return {| stubId := 0; stubHost := "h";
                       stubCredentials :=
                         {| channelCredentials_ssl := true;
                            callCredentials :=
                              metadataGenerator exampleDatabase
                                (Some exampleToken) |} |}))
    as Hstub by (vm_compute; reflexivity).
  destruct (entry_points_reject_unknown_rpc (H := exampleTransport)
              "RunQuery" 1 (Some exampleToken)
              (newGrpcConnection exampleDatabase) _ _ _ eq_refl Hstub)
    as (-> & _ & _ & cachedToken & Hcache).
  split; [reflexivity |]. cbn [fst snd]. rewrite Hcache. discriminate.
Defined.

Lemma invokeStreamingRPC_pending_until_terminal_witness :
  observe (streaming_events "BatchGetDocuments" (map ReadableData [4; 5])
             {| heap := [[]]; results := 0; responseDeferred := Pending |})
  = NotSettled.
Proof.
  refine (proj1
    (invokeStreamingRPC_pending_until_terminal "BatchGetDocuments" 3
       (Some exampleToken) (newGrpcConnection exampleDatabase)
       (invokeStreamingRPC "BatchGetDocuments" 3 (Some exampleToken)
          (newGrpcConnection exampleDatabase)).1.1
       (invokeStreamingRPC "BatchGetDocuments" 3 (Some exampleToken)
          (newGrpcConnection exampleDatabase)).1.2
       {| heap := [[]]; results := 0; responseDeferred := Pending |}
       [4; 5] _)).
  reflexivity.
Defined.

Lemma messages_delivered_until_close_witness :
  closeTrigger (GrpcEnded []) = true
  /\ messagesDelivered
       (run (map dataThenSends [(1, [7]); (2, [0])]
               ++ GrpcEnded [] :: [GrpcData 3 []; TimerFired []])
            {| closed := false |}).1.2
     = [1; 2].
Proof.
  split; [reflexivity |].
  exact (messages_delivered_until_close [(1, [7]); (2, [0])] (GrpcEnded [])
           [GrpcData 3 []; TimerFired []] eq_refl).
Defined.

Lemma deliveries_ordered_when_open_first_witness :
  delivered
    (run (map (fun msg => Local (Send msg)) [1]
            ++ TimerFired [Send 2]
            :: [GrpcData 5 []; GrpcEnded []; GrpcData 6 []])
         {| closed := false |}).1.2
  = [CallOnOpen; CallOnMessage 5; CallOnClose None].
Proof.
  etransitivity;
    [refine (proj1 (deliveries_ordered_when_open_first _ _ _ _)); reflexivity
    | reflexivity].
Defined.
